(** * prizm.console: the [Console] logger

    A shallow embedding of [src/prizm/console.py].  The class prints
    colour-coded messages to the terminal and appends plain-text copies
    to a log file.  Every observable action of the class is a call of
    something it does not implement itself: the builtin [print], the
    twelve colour printers of [prizm.util.color], [path_exists] of
    [prizm.util.file], and the append-open / write / close of a file.
    The embedding records those calls, in order, in a trace, and lets
    the environment decide which of them raise. *)

From Stdlib Require Import String Ascii List ZArith Bool DecimalString Lia.
From Stdlib Require DecimalZ DecimalPos.
Import ListNotations.
Open Scope string_scope.

Module console.

(** ** Python values and [str] *)

(** The message components handed to the logger.  Floats are left out;
    every other printable value the methods are documented to take is
    one of these. *)
Inductive PyVal : Type :=
| PyStr (s : string)
| PyInt (z : Z)
| PyBool (b : bool)
| PyNone.

(** Decimal rendering of a Python [int]. *)
Definition str_int (z : Z) : string := NilZero.string_of_int (Z.to_int z).

(** Python's [str(v)]. *)
Definition str (v : PyVal) : string :=
  match v with
  | PyStr s => s
  | PyInt z => str_int z
  | PyBool true => "True"
  | PyBool false => "False"
  | PyNone => "None"
  end.

(** [sep.join(map(str, args))]. *)
Definition join (sep : string) (args : list PyVal) : string :=
  String.concat sep (map str args).

Definition ESC : string := String "027"%char EmptyString.
Definition NL : string := String "010"%char EmptyString.

(** ** External calls *)

(** The colour printers imported from [prizm.util.color]. *)
Inductive ColorFn : Type :=
| RED | GRE | YEL | BLU | MAG | CYA
| BRED | BGRE | BYEL | BBLU | BMAG | BCYA.

(** One completed call of a collaborator.
    - [Print text]: the builtin [print] wrote [text] to standard output;
    - [CallColor f args]: the colour printer [f] was called on [args];
    - [PathExists p]: [path_exists(p)] returned;
    - [AppendFile p text]: [open(p, "a")], [f.write(text)] and the close
      of the [with] block went through. *)
Inductive Effect : Type :=
| Print (text : string)
| CallColor (f : ColorFn) (args : list PyVal)
| PathExists (p : string)
| AppendFile (p : string) (text : string).

Definition Trace := list Effect.

(** ** The object *)

(** The attributes of a [Console].  [path] is tested against [None]
    before every write, so it is an optional string here. *)
Record Console : Type := mkConsole {
  directory : string;
  terminal : bool;
  _log : bool;
  path : option string;
  labels : list string
}.

Definition set_labels (ls : list string) (self : Console) : Console :=
  mkConsole (directory self) (terminal self) (_log self) (path self) ls.

Definition set__log (b : bool) (self : Console) : Console :=
  mkConsole (directory self) (terminal self) b (path self) (labels self).

(** How a call ends: it returns a value, or an exception of a
    collaborator propagates out of it. *)
Inductive Outcome (A : Type) : Type :=
| Returned (a : A)
| Raised.
Arguments Returned {A} a.
Arguments Raised {A}.

(** What a method call leaves behind. *)
Record Run (A : Type) : Type := mkRun {
  outcome : Outcome A;
  self_after : Console;
  trace_after : Trace
}.
Arguments mkRun {A} _ _ _.
Arguments outcome {A} _.
Arguments self_after {A} _.
Arguments trace_after {A} _.

(** A method body: it runs on [self] and on the calls made so far. *)
Definition M (A : Type) : Type := Console -> Trace -> Run A.

Definition ret {A : Type} (a : A) : M A :=
  fun self t => mkRun (Returned a) self t.

Definition bind {A B : Type} (m : M A) (k : A -> M B) : M B :=
  fun self t =>
    let r := m self t in
    match outcome r with
    | Returned a => k a (self_after r) (trace_after r)
    | Raised => mkRun Raised (self_after r) (trace_after r)
    end.

Notation "x <- m ;; k" := (bind m (fun x => k))
  (at level 61, m at next level, right associativity).
Notation "m ;; k" := (bind m (fun _ => k))
  (at level 61, right associativity).

(** Read an attribute of [self]. *)
Definition attr {A : Type} (f : Console -> A) : M A :=
  fun self t => mkRun (Returned (f self)) self t.

(** Assign to the attributes of [self]. *)
Definition assign (f : Console -> Console) : M unit :=
  fun self t => mkRun (Returned tt) (f self) t.

(** [for x in xs: body(x)]. *)
Fixpoint for_each {A : Type} (xs : list A) (body : A -> M unit) : M unit :=
  match xs with
  | [] => ret tt
  | x :: xs' => body x ;; for_each xs' body
  end.

Section Methods.

(** The environment: [env t e] tells whether the call [e], made after
    the calls [t], returns ([true]) or raises ([false]). *)
Variable env : Trace -> Effect -> bool.

(** A call of a collaborator. *)
Definition call (e : Effect) : M unit :=
  fun self t =>
    if env t e then mkRun (Returned tt) self (t ++ [e])%list
    else mkRun Raised self t.

(** [print(objects..., end=end_)]. *)
Definition print (objects : list PyVal) (end_ : string) : M unit :=
  call (Print (join " " objects ++ end_)).

(** [prizm.util.file.path_exists(p)]. *)
Definition path_exists (p : string) : M unit := call (PathExists p).

(** [with open(p, "a") as f: f.write(text)], taken as one call: the
    trace records it once the whole block went through.  A block that
    raises part-way (at the open, the write or the close) is recorded as
    a call that raised, so the trace says nothing about what such a
    block left in the file. *)
Definition open_append_write (p : string) (text : string) : M unit :=
  call (AppendFile p text).

(** [Console.__init__(directory, terminal)], where [now_ms] is what
    [int(time.time() * 1000)] evaluates to.  The constructor runs on the
    calls made so far and yields the new object. *)
Definition __init__ (directory : string) (terminal : bool) (now_ms : Z)
    (t : Trace) : Outcome Console * Trace :=
  if env t (PathExists directory) then
    let timestamp := now_ms in
    (Returned (mkConsole directory terminal true
                 (Some (directory ++ str_int timestamp ++ ".log")) []),
     (t ++ [PathExists directory])%list)
  else (Raised, t).

(** [Console._write(args...)]. *)
Definition _write (args : list PyVal) : M unit :=
  self_path <- attr path ;;
  match self_path with
  | Some p =>
      let path := "./log/" ++ p in
      path_exists path ;;
      open_append_write path (join " " args ++ NL)
  | None => ret tt
  end.

(** [Console.label(label)]. *)
Definition label (l : string) : M unit :=
  assign (fun self => set_labels (labels self ++ [l])%list self).

(** [Console.warning(args...)]. *)
Definition warning (args : list PyVal) : M unit :=
  print [PyStr (ESC ++ "[1;35mWARNING: " ++ ESC ++ "[0m")] "" ;;
  for_each args (fun arg => print [arg] " ") ;;
  _write (PyStr "WARNING:" :: args).

(** [Console.error(args...)]. *)
Definition error (args : list PyVal) : M unit :=
  print [PyStr (ESC ++ "[1;31mERROR: " ++ ESC ++ "[0m")] "" ;;
  for_each args (fun arg => print [arg] " ") ;;
  _write (PyStr "ERROR:" :: args).

(** [Console.err(args...)]. *)
Definition err (args : list PyVal) : M unit := error args.

(** [Console.warn(args...)]. *)
Definition warn (args : list PyVal) : M unit := warning args.

(** [Console._color_switch(color, *args)]. *)
Definition _color_switch (color : option string) (args : list PyVal) : M unit :=
  match color with
  | None => print args NL
  | Some c =>
      if c =? "GRE" then call (CallColor GRE args)
      else if c =? "RED" then call (CallColor RED args)
      else if c =? "BLU" then call (CallColor BLU args)
      else if c =? "YEL" then call (CallColor YEL args)
      else if c =? "MAG" then call (CallColor MAG args)
      else if c =? "CYA" then call (CallColor CYA args)
      else if c =? "BGRE" then call (CallColor BGRE args)
      else if c =? "BRED" then call (CallColor BRED args)
      else if c =? "BBLU" then call (CallColor BBLU args)
      else if c =? "BYEL" then call (CallColor BYEL args)
      else if c =? "BMAG" then call (CallColor BMAG args)
      else if c =? "BCYA" then call (CallColor BCYA args)
      else ret tt
  end.

(** [Console.out(args..., color=None)]. *)
Definition out (args : list PyVal) (color : option string) : M unit :=
  _color_switch color args ;;
  self_path <- attr path ;;
  match self_path with
  | Some _ => _write args
  | None => ret tt
  end.

(** [Console.set_log(log_gate)]. *)
Definition set_log (log_gate : bool) : M unit :=
  assign (set__log log_gate).

(** [Console.log(args..., color=None, label=None)]. *)
Definition log (args : list PyVal) (color : option string)
    (label : option string) : M unit :=
  match label with
  | Some l =>
      self_labels <- attr labels ;;
      if existsb (String.eqb l) self_labels then
        self_terminal <- attr terminal ;;
        if self_terminal then
          _color_switch color args ;;
          self_path <- attr path ;;
          match self_path with
          | Some _ => _write args
          | None => ret tt
          end
        else
          self_path <- attr path ;;
          match self_path with
          | Some _ => _write args
          | None => ret tt
          end
      else ret tt
  | None =>
      self_terminal <- attr terminal ;;
      if self_terminal then
        _color_switch color args ;;
        self_path <- attr path ;;
        match self_path with
        | Some _ => _write args
        | None => ret tt
        end
      else
        self_path <- attr path ;;
        match self_path with
        | Some _ => _write args
        | None => ret tt
        end
  end.

(** ** Sequences of public calls *)

(** One call of a public method, with its arguments. *)
Inductive Call : Type :=
| CLabel (l : string)
| CWarning (args : list PyVal)
| CError (args : list PyVal)
| CErr (args : list PyVal)
| CWarn (args : list PyVal)
| COut (args : list PyVal) (color : option string)
| CSetLog (log_gate : bool)
| CLog (args : list PyVal) (color : option string) (label : option string).

Definition invoke (k : Call) : M unit :=
  match k with
  | CLabel l => label l
  | CWarning args => warning args
  | CError args => error args
  | CErr args => err args
  | CWarn args => warn args
  | COut args color => out args color
  | CSetLog b => set_log b
  | CLog args color l => log args color l
  end.

(** A client that makes the calls one after the other and stops at the
    first exception. *)
Definition run_calls (ks : list Call) : M unit := for_each ks invoke.

(** Make the calls of [fx] in order, up to the first that raises. *)
Fixpoint perform (fx : Trace) : M unit :=
  match fx with
  | [] => ret tt
  | e :: fx' => call e ;; perform fx'
  end.

(** The calls a method body made, given the calls made before it. *)
Definition calls_made (m : M unit) (self : Console) (t : Trace) : Trace :=
  skipn (length t) (trace_after (m self t)).

End Methods.

(** An environment in which no collaborator ever raises. *)
Definition calm : Trace -> Effect -> bool := fun _ _ => true.

(** ** What a trace shows *)

(** Calls that write to the terminal. *)
Definition is_terminal (e : Effect) : bool :=
  match e with
  | Print _ | CallColor _ _ => true
  | PathExists _ | AppendFile _ _ => false
  end.

Definition terminal_output (t : Trace) : Trace := filter is_terminal t.

(** The text the builtin [print] wrote. *)
Fixpoint printed (t : Trace) : string :=
  match t with
  | [] => ""
  | Print text :: t' => text ++ printed t'
  | _ :: t' => printed t'
  end.

(** The file appends, as (path, text) pairs. *)
Fixpoint appends (t : Trace) : list (string * string) :=
  match t with
  | [] => []
  | AppendFile p text :: t' => (p, text) :: appends t'
  | _ :: t' => appends t'
  end.

(** What the appends of a trace added to the file at [p]. *)
Fixpoint file_text (p : string) (t : Trace) : string :=
  match t with
  | [] => ""
  | AppendFile q text :: t' =>
      if q =? p then text ++ file_text p t' else file_text p t'
  | _ :: t' => file_text p t'
  end.

(** ** The behaviour the specification describes *)

(** The twelve colour names of the dispatch. *)
Definition color_names : list string :=
  ["GRE"; "RED"; "BLU"; "YEL"; "MAG"; "CYA";
   "BGRE"; "BRED"; "BBLU"; "BYEL"; "BMAG"; "BCYA"].

(** The printer a colour name stands for. *)
Definition color_fn (c : string) : option ColorFn :=
  if c =? "GRE" then Some GRE
  else if c =? "RED" then Some RED
  else if c =? "BLU" then Some BLU
  else if c =? "YEL" then Some YEL
  else if c =? "MAG" then Some MAG
  else if c =? "CYA" then Some CYA
  else if c =? "BGRE" then Some BGRE
  else if c =? "BRED" then Some BRED
  else if c =? "BBLU" then Some BBLU
  else if c =? "BYEL" then Some BYEL
  else if c =? "BMAG" then Some BMAG
  else if c =? "BCYA" then Some BCYA
  else None.

(** Colour dispatch as the specification has it: no colour prints
    [args] space-joined with a newline, a colour of the enumerated set
    calls its printer, any other name does nothing. *)
Definition dispatch (color : option string) (args : list PyVal) : Trace :=
  match color with
  | None => [Print (join " " args ++ NL)]
  | Some c =>
      match color_fn c with
      | Some f => [CallColor f args]
      | None => []
      end
  end.

(** The file every write goes to, for a console whose [path] is [p]. *)
Definition written_file (p : string) : string := "./log/" ++ p.

(** One record of the log file: the fields space-joined, then a newline. *)
Definition record (args : list PyVal) : string := join " " args ++ NL.

(** Appending one record: the path check, then the append. *)
Definition append_record (self : Console) (args : list PyVal) : Trace :=
  match path self with
  | Some p => [PathExists (written_file p); AppendFile (written_file p) (record args)]
  | None => []
  end.

(** The label gate of [Log]: no label, or a registered one. *)
Definition label_passes (label : option string) (registered : list string) : bool :=
  match label with
  | None => true
  | Some l => existsb (String.eqb l) registered
  end.

(** The decision table of [Log] (label present? x terminal enabled?). *)
Definition Log_table (self : Console) (args : list PyVal)
    (color label : option string) : Trace :=
  if label_passes label (labels self) then
    if terminal self then (dispatch color args ++ append_record self args)%list
    else append_record self args
  else [].

Definition WARNING_prefix : string := ESC ++ "[1;35mWARNING: " ++ ESC ++ "[0m".
Definition ERROR_prefix : string := ESC ++ "[1;31mERROR: " ++ ESC ++ "[0m".

(** Level-tagged output: the coloured prefix, each argument followed by
    a space, then one record that starts with the level tag. *)
Definition level_calls (prefix tag : string) (self : Console)
    (args : list PyVal) : Trace :=
  (Print prefix :: map (fun arg => Print (str arg ++ " ")) args
     ++ append_record self (PyStr tag :: args))%list.

(** The calls a public method attempts on [self], in order. *)
Definition calls_of (self : Console) (k : Call) : Trace :=
  match k with
  | CLabel _ | CSetLog _ => []
  | CWarning args | CWarn args => level_calls WARNING_prefix "WARNING:" self args
  | CError args | CErr args => level_calls ERROR_prefix "ERROR:" self args
  | COut args color => (dispatch color args ++ append_record self args)%list
  | CLog args color label => Log_table self args color label
  end.

(** The only attribute changes a public method makes. *)
Definition state_after (k : Call) (self : Console) : Console :=
  match k with
  | CLabel l => set_labels (labels self ++ [l])%list self
  | CSetLog b => set__log b self
  | _ => self
  end.

(** The arguments a public method hands to [_write]. *)
Definition written_args (k : Call) : option (list PyVal) :=
  match k with
  | CLabel _ | CSetLog _ => None
  | CWarning args | CWarn args => Some (PyStr "WARNING:" :: args)
  | CError args | CErr args => Some (PyStr "ERROR:" :: args)
  | COut args _ | CLog args _ _ => Some args
  end.

(** Two calls that are the same, or are both [set_log] calls. *)
Inductive set_log_variant : Call -> Call -> Prop :=
| slv_same (k : Call) : set_log_variant k k
| slv_set_log (b1 b2 : bool) : set_log_variant (CSetLog b1) (CSetLog b2).

(** Two consoles that agree on every attribute but [_log]. *)
Definition agree_but__log (c1 c2 : Console) : Prop :=
  directory c1 = directory c2 /\ terminal c1 = terminal c2 /\
  path c1 = path c2 /\ labels c1 = labels c2.

(** [n] calls of [label(l)] in a row. *)
Fixpoint register (n : nat) (l : string) : M unit :=
  match n with
  | O => ret tt
  | S n' => label l ;; register n' l
  end.

(** A colour that makes the dispatch print: none, or one of the twelve. *)
Definition renders (color : option string) : bool :=
  match color with
  | None => true
  | Some c => existsb (String.eqb c) color_names
  end.

(** The console [Console()] builds at 1700000000000 ms. *)
Definition default_console : Console :=
  mkConsole "./log/" true true (Some "./log/1700000000000.log") [].

(** The console [Console(terminal=False)] builds at the same instant. *)
Definition quiet_console : Console :=
  mkConsole "./log/" false true (Some "./log/1700000000000.log") [].

(** The same attributes with other values of the two flags. *)
Definition with_flags (terminal_flag log_flag : bool) (self : Console) : Console :=
  mkConsole (directory self) terminal_flag log_flag (path self) (labels self).

(** ** Whole sessions *)

(** The name each colour printer is imported under. *)
Definition fn_name (f : ColorFn) : string :=
  match f with
  | RED => "RED" | GRE => "GRE" | YEL => "YEL"
  | BLU => "BLU" | MAG => "MAG" | CYA => "CYA"
  | BRED => "BRED" | BGRE => "BGRE" | BYEL => "BYEL"
  | BBLU => "BBLU" | BMAG => "BMAG" | BCYA => "BCYA"
  end.

(** The labels a list of calls registers, in call order. *)
Fixpoint registered (ks : list Call) : list string :=
  match ks with
  | [] => []
  | CLabel l :: ks' => l :: registered ks'
  | _ :: ks' => registered ks'
  end.

(** The calls a list of public calls attempts, each call on the
    attributes the calls before it left. *)
Fixpoint session_calls (self : Console) (ks : list Call) : Trace :=
  match ks with
  | [] => []
  | k :: ks' => (calls_of self k ++ session_calls (state_after k self) ks')%list
  end.

(** The arguments a call writes on [self]: those it hands to [_write],
    unless the label gate of [log] drops the call. *)
Definition written_on (self : Console) (k : Call) : option (list PyVal) :=
  match k with
  | CLog args _ label =>
      if label_passes label (labels self) then Some args else None
  | _ => written_args k
  end.

(** The records a list of calls writes, one after the other. *)
Fixpoint session_text (self : Console) (ks : list Call) : string :=
  match ks with
  | [] => ""
  | k :: ks' =>
      match written_on self k with
      | Some wargs => record wargs ++ session_text (state_after k self) ks'
      | None => session_text (state_after k self) ks'
      end
  end.

(** An environment in which [path_exists] always raises and every
    other call returns. *)
Definition path_check_fails : Trace -> Effect -> bool :=
  fun _ e =>
    match e with
    | PathExists _ => false
    | _ => true
    end.

(** A list of calls that only write to the terminal. *)
Definition terminal_only (fx : Trace) : Prop :=
  Forall (fun e => is_terminal e = true) fx.

(** ** The monad and [perform] *)

Section Properties.

Variable env : Trace -> Effect -> bool.

Lemma skipn_app_exact (A : Type) (t fx : list A) :
  skipn (length t) (t ++ fx)%list = fx.
Proof.
  induction t as [|x t IH]; simpl; auto.
Qed.

Lemma bind_assoc (A B C : Type) (m : M A) (k1 : A -> M B) (k2 : B -> M C) self t :
  bind (bind m k1) k2 self t = bind m (fun a => bind (k1 a) k2) self t.
Proof.
  unfold bind. destruct (m self t) as [[a|] self' t']; reflexivity.
Qed.

Lemma bind_call (B : Type) (e : Effect) (k : M B) self t :
  (call env e ;; k) self t =
  if env t e then k self (t ++ [e])%list else mkRun Raised self t.
Proof.
  unfold bind, call. destruct (env t e); reflexivity.
Qed.

Lemma perform_self (fx : Trace) : forall self t,
  self_after (perform env fx self t) = self.
Proof.
  induction fx as [|e fx IH]; intros self t; simpl.
  - reflexivity.
  - unfold bind, call. destruct (env t e); simpl; [apply IH | reflexivity].
Qed.

Lemma perform_app (a b : Trace) : forall self t,
  perform env (a ++ b)%list self t = (perform env a ;; perform env b) self t.
Proof.
  induction a as [|e a IH]; intros self t; simpl.
  - reflexivity.
  - rewrite bind_assoc, !bind_call.
    destruct (env t e); [apply IH | reflexivity].
Qed.

(** Two bodies that each make a fixed list of calls make, in sequence,
    the two lists one after the other. *)
Lemma seq_perform (a b : Trace) (m1 m2 : M unit) self t :
  (forall t', m1 self t' = perform env a self t') ->
  (forall t', m2 self t' = perform env b self t') ->
  (m1 ;; m2) self t = perform env (a ++ b)%list self t.
Proof.
  intros H1 H2. rewrite perform_app. unfold bind. rewrite H1.
  destruct (outcome (perform env a self t)); auto.
  rewrite perform_self. apply H2.
Qed.

(** The calls made are a prefix of the calls attempted. *)
Lemma perform_prefix (fx : Trace) : forall self t,
  exists n, trace_after (perform env fx self t) = (t ++ firstn n fx)%list.
Proof.
  induction fx as [|e fx IH]; intros self t; simpl.
  - exists 0%nat. now rewrite app_nil_r.
  - unfold bind, call. destruct (env t e); simpl.
    + destruct (IH self (t ++ [e])%list) as [n Hn].
      exists (S n). rewrite Hn. simpl. now rewrite <- app_assoc.
    + exists 0%nat. now rewrite app_nil_r.
Qed.

(** A [perform] that returns has made all of its calls. *)
Lemma perform_returned (fx : Trace) : forall self t,
  outcome (perform env fx self t) = Returned tt ->
  trace_after (perform env fx self t) = (t ++ fx)%list.
Proof.
  induction fx as [|e fx IH]; intros self t; simpl.
  - intros _. now rewrite app_nil_r.
  - unfold bind, call. destruct (env t e); simpl.
    + intros H. rewrite (IH _ _ H). now rewrite <- app_assoc.
    + discriminate.
Qed.

(** Where nothing raises, every call is made and the body returns. *)
Lemma perform_calm (fx : Trace) :
  (forall t e, env t e = true) ->
  forall self t, perform env fx self t = mkRun (Returned tt) self (t ++ fx)%list.
Proof.
  intros Hcalm. induction fx as [|e fx IH]; intros self t; simpl.
  - unfold ret. now rewrite app_nil_r.
  - unfold bind, call. rewrite Hcalm. simpl. rewrite IH.
    now rewrite <- app_assoc.
Qed.

Lemma calls_made_perform_returned (m : M unit) (fx : Trace) self t :
  m self t = perform env fx self t ->
  outcome (m self t) = Returned tt ->
  calls_made m self t = fx.
Proof.
  intros Heq Hout. unfold calls_made. rewrite Heq in *.
  rewrite (perform_returned _ _ _ Hout). apply skipn_app_exact.
Qed.

Lemma calls_made_perform_prefix (m : M unit) (fx : Trace) self t :
  m self t = perform env fx self t ->
  exists n, calls_made m self t = firstn n fx.
Proof.
  intros Heq. unfold calls_made. rewrite Heq.
  destruct (perform_prefix fx self t) as [n Hn].
  exists n. rewrite Hn. apply skipn_app_exact.
Qed.

(** ** Every method body as a list of calls *)

Ltac split_color_tests :=
  repeat match goal with
  | |- context [if (?c =? ?name)%string then _ else _] =>
      destruct (c =? name)%string eqn:?
  end.

Lemma _color_switch_perform color args self t :
  _color_switch env color args self t = perform env (dispatch color args) self t.
Proof.
  destruct color as [c|]; unfold _color_switch, dispatch, color_fn, print.
  - split_color_tests; simpl; unfold bind, call, ret;
      try (destruct (env t _); reflexivity); reflexivity.
  - simpl. unfold bind, call, ret. destruct (env t _); reflexivity.
Qed.

Lemma color_fn_unknown c :
  ~ In c color_names -> color_fn c = None.
Proof.
  intros Hnot. unfold color_fn.
  split_color_tests; try reflexivity;
    match goal with
    | H : (c =? _)%string = true |- _ =>
        apply String.eqb_eq in H; subst c; exfalso; apply Hnot;
        unfold color_names; simpl; tauto
    end.
Qed.

Lemma dispatch_length color args :
  length (dispatch color args) = if renders color then 1%nat else 0%nat.
Proof.
  destruct color as [c|]; [|reflexivity].
  unfold dispatch, color_fn, renders, color_names. simpl.
  split_color_tests; reflexivity.
Qed.

Lemma dispatch_terminal color args :
  terminal_output (dispatch color args) = dispatch color args.
Proof.
  destruct color as [c|]; [|reflexivity].
  unfold dispatch. destruct (color_fn c); reflexivity.
Qed.

Lemma _write_perform args self t :
  _write env args self t = perform env (append_record self args) self t.
Proof.
  unfold _write, append_record, attr, bind at 1. simpl.
  destruct (path self) as [p|]; [|reflexivity].
  unfold path_exists, open_append_write, written_file, record. simpl.
  rewrite !bind_call. destruct (env t _); [|reflexivity].
  unfold bind, call, ret. destruct (env _ _); reflexivity.
Qed.

Lemma guarded__write_perform args self t :
  (self_path <- attr path ;;
   match self_path with
   | Some _ => _write env args
   | None => ret tt
   end) self t = perform env (append_record self args) self t.
Proof.
  unfold attr, bind at 1. simpl.
  destruct (path self) as [p|] eqn:Hp.
  - apply _write_perform.
  - unfold append_record. now rewrite Hp.
Qed.

Lemma for_each_print args : forall self t,
  for_each args (fun arg => print env [arg] " ") self t =
  perform env (map (fun arg => Print (str arg ++ " ")) args) self t.
Proof.
  induction args as [|a args IH]; intros self t; simpl.
  - reflexivity.
  - unfold print at 1. unfold join. simpl. rewrite !bind_call.
    destruct (env t _); [apply IH | reflexivity].
Qed.

Lemma level_perform (prefix tag : string) args self t :
  (print env [PyStr prefix] "" ;;
   for_each args (fun arg => print env [arg] " ") ;;
   _write env (PyStr tag :: args)) self t =
  perform env (level_calls (prefix ++ "") tag self args) self t.
Proof.
  unfold level_calls.
  change (Print (prefix ++ "") :: ?l)%list with ([Print (prefix ++ "")] ++ l)%list.
  apply seq_perform.
  - intros t'. unfold print, join. simpl.
    unfold bind, call, ret. destruct (env t' _); reflexivity.
  - intros t'. apply seq_perform.
    + apply for_each_print.
    + intros t''. apply _write_perform.
Qed.

Lemma warning_perform args self t :
  warning env args self t =
  perform env (level_calls WARNING_prefix "WARNING:" self args) self t.
Proof.
  unfold warning. rewrite level_perform. reflexivity.
Qed.

Lemma error_perform args self t :
  error env args self t =
  perform env (level_calls ERROR_prefix "ERROR:" self args) self t.
Proof.
  unfold error. rewrite level_perform. reflexivity.
Qed.

Lemma out_perform args color self t :
  out env args color self t =
  perform env (dispatch color args ++ append_record self args)%list self t.
Proof.
  unfold out. apply seq_perform.
  - intros t'. apply _color_switch_perform.
  - intros t'. apply guarded__write_perform.
Qed.

Lemma log_perform args color label self t :
  log env args color label self t =
  perform env (Log_table self args color label) self t.
Proof.
  unfold log, Log_table, label_passes.
  assert (Hgate : forall t',
    (self_terminal <- attr terminal ;;
     if self_terminal then
       _color_switch env color args ;;
       self_path <- attr path ;;
       match self_path with
       | Some _ => _write env args
       | None => ret tt
       end
     else
       self_path <- attr path ;;
       match self_path with
       | Some _ => _write env args
       | None => ret tt
       end) self t' =
    perform env (if terminal self
                 then (dispatch color args ++ append_record self args)%list
                 else append_record self args) self t').
  { intros t'. unfold attr at 1, bind at 1. simpl.
    destruct (terminal self).
    - apply seq_perform; intros t''.
      + apply _color_switch_perform.
      + apply guarded__write_perform.
    - apply guarded__write_perform. }
  destruct label as [l|].
  - unfold attr at 1, bind at 1. simpl.
    destruct (existsb (String.eqb l) (labels self)); [apply Hgate | reflexivity].
  - apply Hgate.
Qed.

(** Every public call makes the calls of [calls_of], in order and up to
    the first that raises, and changes the attributes as [state_after]. *)
Lemma invoke_perform k self t :
  invoke env k self t =
  mkRun (outcome (perform env (calls_of self k) self t))
        (state_after k self)
        (trace_after (perform env (calls_of self k) self t)).
Proof.
  assert (Heta : forall r : Run unit,
            self_after r = self -> r = mkRun (outcome r) self (trace_after r)).
  { intros [o s' t'] Hs. simpl in *. now subst. }
  destruct k as [l|args|args|args|args|args color|b|args color l];
    cbn [invoke calls_of state_after]; try reflexivity.
  - rewrite warning_perform. apply Heta, perform_self.
  - rewrite error_perform. apply Heta, perform_self.
  - unfold err. rewrite error_perform. apply Heta, perform_self.
  - unfold warn. rewrite warning_perform. apply Heta, perform_self.
  - rewrite out_perform. apply Heta, perform_self.
  - rewrite log_perform. apply Heta, perform_self.
Qed.

Lemma calls_made_invoke_prefix k self t :
  exists n, calls_made (invoke env k) self t = firstn n (calls_of self k).
Proof.
  unfold calls_made. rewrite invoke_perform. simpl.
  destruct (perform_prefix (calls_of self k) self t) as [n Hn].
  exists n. rewrite Hn. apply skipn_app_exact.
Qed.

Lemma calls_made_invoke_returned k self t :
  outcome (invoke env k self t) = Returned tt ->
  calls_made (invoke env k) self t = calls_of self k.
Proof.
  unfold calls_made. rewrite invoke_perform. simpl. intros H.
  rewrite (perform_returned _ _ _ H). apply skipn_app_exact.
Qed.

(** The calls a [perform] makes, and how it ends, do not depend on the
    attributes of [self]. *)
Lemma perform_any_self (fx : Trace) : forall c1 c2 t,
  outcome (perform env fx c1 t) = outcome (perform env fx c2 t) /\
  trace_after (perform env fx c1 t) = trace_after (perform env fx c2 t).
Proof.
  induction fx as [|e fx IH]; intros c1 c2 t; simpl.
  - split; reflexivity.
  - rewrite !bind_call. destruct (env t e); [apply IH | split; reflexivity].
Qed.

(** ** What a list of calls shows *)

Lemma string_app_assoc (a b c : string) : (a ++ b) ++ c = a ++ b ++ c.
Proof.
  induction a as [|ch a IH]; simpl; [reflexivity | now rewrite IH].
Qed.

Lemma written_file_neq (p : string) : written_file p <> p.
Proof.
  intros H. apply (f_equal String.length) in H.
  unfold written_file in H. simpl in H. lia.
Qed.

Lemma appends_app (a b : Trace) :
  appends (a ++ b)%list = (appends a ++ appends b)%list.
Proof.
  induction a as [|[text|f args|q|q text] a IH]; simpl; auto.
  now rewrite IH.
Qed.

Lemma appends_dispatch color args : appends (dispatch color args) = [].
Proof.
  destruct color as [c|]; [|reflexivity].
  unfold dispatch. destruct (color_fn c); reflexivity.
Qed.

Lemma appends_prints (args : list PyVal) :
  appends (map (fun arg => Print (str arg ++ " ")) args) = [].
Proof.
  induction args; simpl; auto.
Qed.

Lemma terminal_output_prints (args : list PyVal) :
  terminal_output (map (fun arg => Print (str arg ++ " ")) args) =
  map (fun arg => Print (str arg ++ " ")) args.
Proof.
  induction args as [|a args IH]; simpl; [reflexivity | now f_equal].
Qed.

Lemma appends_prefix_nil (fx : Trace) : forall n,
  appends fx = [] -> appends (firstn n fx) = [].
Proof.
  induction fx as [|[text|f args|q|q text] fx IH]; intros [|n] H;
    simpl in *; auto; discriminate.
Qed.

(** A prefix of calls that hold one append holds that append or none. *)
Lemma appends_prefix_single (fx : Trace) (r : string * string) : forall n,
  appends fx = [r] ->
  appends (firstn n fx) = [] \/ appends (firstn n fx) = [r].
Proof.
  induction fx as [|[text|f args|q|q text] fx IH]; intros [|n] H;
    simpl in *; auto; try discriminate.
  injection H as Hr Hrest. right. subst r.
  now rewrite (appends_prefix_nil fx n Hrest).
Qed.

Lemma terminal_output_prefix_nil (fx : Trace) : forall n,
  terminal_output fx = [] -> terminal_output (firstn n fx) = [].
Proof.
  induction fx as [|[text|f args|q|q text] fx IH]; intros [|n] H;
    simpl in *; auto; discriminate.
Qed.

Lemma terminal_output_app (a b : Trace) :
  terminal_output (a ++ b)%list = (terminal_output a ++ terminal_output b)%list.
Proof.
  apply filter_app.
Qed.

Lemma appends_append_record self args p :
  path self = Some p ->
  append_record self args =
    [PathExists (written_file p); AppendFile (written_file p) (record args)].
Proof.
  intros Hp. unfold append_record. now rewrite Hp.
Qed.

(** The appends a public call attempts: none, or the one record of the
    arguments it hands to [_write]. *)
Lemma appends_calls_of k self p :
  path self = Some p ->
  appends (calls_of self k) = [] \/
  exists wargs, written_args k = Some wargs /\
    appends (calls_of self k) = [(written_file p, record wargs)].
Proof.
  intros Hp.
  destruct k as [l|args|args|args|args|args color|b|args color l];
    cbn [calls_of written_args]; auto;
    try (right; eexists; split; [reflexivity|];
         unfold level_calls; rewrite (appends_append_record _ _ _ Hp);
         simpl; rewrite appends_app, appends_prints; reflexivity).
  - right. eexists. split; [reflexivity|].
    rewrite (appends_append_record _ _ _ Hp), appends_app, appends_dispatch.
    reflexivity.
  - unfold Log_table. rewrite (appends_append_record _ _ _ Hp).
    destruct (label_passes l (labels self)); [|now left].
    right. eexists. split; [reflexivity|].
    destruct (terminal self); [|reflexivity].
    rewrite appends_app, appends_dispatch. reflexivity.
Qed.

Lemma calls_of_agree k1 k2 c1 c2 :
  set_log_variant k1 k2 -> agree_but__log c1 c2 ->
  calls_of c1 k1 = calls_of c2 k2 /\
  agree_but__log (state_after k1 c1) (state_after k2 c2).
Proof.
  intros Hk (Hd & Ht & Hp & Hl).
  assert (Hrec : forall args, append_record c1 args = append_record c2 args).
  { intros args. unfold append_record. now rewrite Hp. }
  destruct Hk as [k|b1 b2].
  - destruct k as [l|args|args|args|args|args color|b|args color l];
      cbn [calls_of state_after]; unfold agree_but__log, level_calls, Log_table;
      simpl; rewrite ?Hrec, ?Hd, ?Ht, ?Hp, ?Hl; auto.
  - simpl. unfold agree_but__log. simpl. auto.
Qed.

(** ** The gated, labelled [log] *)

(** The rows of the table for a call that passes the label gate. *)
Lemma Log_table_passed self args color label p :
  path self = Some p ->
  label_passes label (labels self) = true ->
  Log_table self args color label =
    ((if terminal self then dispatch color args else []) ++
     [PathExists (written_file p);
      AppendFile (written_file p) (record args)])%list.
Proof.
  intros Hp Hgate. unfold Log_table.
  rewrite Hgate, (appends_append_record _ _ _ Hp).
  destruct (terminal self); reflexivity.
Qed.

(** C2.  [log] follows the decision table.  On a console whose [path] is
    set, a call with no label, or with a label that is in [labels],
    makes the colour dispatch exactly when [terminal] is true and then
    checks the path and appends the record of [args]; a call with a
    label that is not in [labels] returns without making any call.  With
    [terminal] false nothing is written to the terminal, and a call that
    passes the gate and returns has appended exactly one record. *)
Theorem log_decision_table args color label self t p :
  path self = Some p ->
  log env args color label self t =
    (if label_passes label (labels self) then
       perform env
         ((if terminal self then dispatch color args else []) ++
          [PathExists (written_file p);
           AppendFile (written_file p) (record args)])%list self t
     else mkRun (Returned tt) self t)
  /\ (label_passes label (labels self) = false ->
      calls_made (log env args color label) self t = [])
  /\ (terminal self = false ->
      terminal_output (calls_made (log env args color label) self t) = [])
  /\ (label_passes label (labels self) = true ->
      outcome (log env args color label self t) = Returned tt ->
      appends (calls_made (log env args color label) self t) =
        [(written_file p, record args)]
      /\ terminal_output (calls_made (log env args color label) self t) =
        (if terminal self then dispatch color args else [])).
Proof.
  intros Hp.
  assert (Htable : Log_table self args color label =
    if label_passes label (labels self) then
      ((if terminal self then dispatch color args else []) ++
       [PathExists (written_file p);
        AppendFile (written_file p) (record args)])%list
    else []).
  { unfold Log_table. rewrite (appends_append_record _ _ _ Hp).
    destruct (label_passes label (labels self)), (terminal self); reflexivity. }
  pose proof (log_perform args color label self t) as Hlog.
  rewrite Htable in Hlog.
  split; [|split; [|split]].
  - rewrite Hlog. destruct (label_passes label (labels self)); reflexivity.
  - intros Hgate. unfold calls_made. rewrite Hlog, Hgate. simpl.
    apply skipn_all.
  - intros Hterm.
    destruct (calls_made_perform_prefix _ _ _ _ Hlog) as [n Hn].
    rewrite Hn. apply terminal_output_prefix_nil.
    rewrite Hterm. destruct (label_passes label (labels self)); reflexivity.
  - intros Hgate Hret.
    rewrite (calls_made_perform_returned _ _ _ _ Hlog Hret), Hgate.
    rewrite appends_app, terminal_output_app.
    destruct (terminal self); simpl.
    + rewrite appends_dispatch, dispatch_terminal, app_nil_r. auto.
    + auto.
Qed.

(** ** Colour dispatch and [out] *)

(** C5.  For a colour name that is not one of the twelve, the colour
    dispatch makes no call at all and returns, and [out] with such a
    colour still checks the path and appends the record of [args]. *)
Theorem unknown_color_is_silent c args self t p :
  ~ In c color_names ->
  path self = Some p ->
  _color_switch env (Some c) args self t = mkRun (Returned tt) self t
  /\ out env args (Some c) self t =
       perform env [PathExists (written_file p);
                    AppendFile (written_file p) (record args)] self t
  /\ (outcome (out env args (Some c) self t) = Returned tt ->
      calls_made (out env args (Some c)) self t =
        [PathExists (written_file p);
         AppendFile (written_file p) (join " " args ++ NL)]).
Proof.
  intros Hc Hp.
  assert (Hd : dispatch (Some c) args = []).
  { unfold dispatch. now rewrite (color_fn_unknown _ Hc). }
  assert (Hout : out env args (Some c) self t =
       perform env [PathExists (written_file p);
                    AppendFile (written_file p) (record args)] self t).
  { rewrite out_perform, Hd, (appends_append_record _ _ _ Hp). reflexivity. }
  split; [|split].
  - rewrite _color_switch_perform, Hd. reflexivity.
  - exact Hout.
  - intros Hret. apply (calls_made_perform_returned _ _ _ _ Hout Hret).
Qed.

(** C8.  [out] never reads [terminal]: on every console whose [path] is
    set it runs the colour dispatch on [args] and then checks the path
    and appends the record of [args], the space-joined arguments and a
    newline; a console with [terminal] false does the same. *)
Theorem out_is_unconditional args color self t p :
  path self = Some p ->
  out env args color self t =
    (_color_switch env color args ;; _write env args) self t
  /\ out env args color self t =
       perform env (dispatch color args ++
                    [PathExists (written_file p);
                     AppendFile (written_file p) (join " " args ++ NL)])%list
               self t
  /\ (outcome (out env args color self t) = Returned tt ->
      terminal_output (calls_made (out env args color) self t) =
        dispatch color args
      /\ appends (calls_made (out env args color) self t) =
        [(written_file p, join " " args ++ NL)]).
Proof.
  intros Hp.
  assert (Hout : out env args color self t =
       perform env (dispatch color args ++
                    [PathExists (written_file p);
                     AppendFile (written_file p) (join " " args ++ NL)])%list
               self t).
  { rewrite out_perform, (appends_append_record _ _ _ Hp). reflexivity. }
  split; [|split].
  - rewrite out_perform. symmetry. apply seq_perform; intros t'.
    + apply _color_switch_perform.
    + apply _write_perform.
  - exact Hout.
  - intros Hret. rewrite (calls_made_perform_returned _ _ _ _ Hout Hret).
    rewrite terminal_output_app, appends_app, appends_dispatch, dispatch_terminal.
    simpl. now rewrite app_nil_r.
Qed.

(** ** The log-file record *)

(** The appends a public call attempts on [self]: the one record of the
    arguments it writes there, or none when it writes nothing. *)
Lemma appends_calls_of_written k self p :
  path self = Some p ->
  appends (calls_of self k) =
    match written_on self k with
    | Some wargs => [(written_file p, record wargs)]
    | None => []
    end.
Proof.
  intros Hp.
  assert (Hrec : forall pre args,
    appends pre = [] ->
    appends (pre ++ append_record self args)%list =
      [(written_file p, record args)]).
  { intros pre args Hpre.
    now rewrite appends_app, Hpre, (appends_append_record _ _ _ Hp). }
  destruct k as [l|args|args|args|args|args color|b|args color l];
    cbn [calls_of written_on written_args]; try reflexivity;
    try (apply (Hrec (Print _ :: _)); apply appends_prints).
  - apply Hrec, appends_dispatch.
  - unfold Log_table. destruct (label_passes l (labels self)); [|reflexivity].
    destruct (terminal self).
    + apply Hrec, appends_dispatch.
    + apply (Hrec [] args). reflexivity.
Qed.

(** C6.  One call of [_write] checks the path and appends one string:
    the space-joined [str] of the arguments of that call, then a
    newline, with nothing before it.  When the path check and the append
    go through, that record is in the file exactly once and the call
    returns; a [_write] that a collaborator interrupts has appended
    nothing.  The same holds of every public call, for the arguments it
    hands to [_write]: a call that returns has appended exactly the one
    record of what it writes, and nothing when it writes nothing. *)
Theorem record_round_trip args self t p :
  path self = Some p ->
  _write env args self t =
    perform env [PathExists (written_file p);
                 AppendFile (written_file p) (join " " args ++ NL)] self t
  /\ (env t (PathExists (written_file p)) = true ->
      env (t ++ [PathExists (written_file p)])%list
          (AppendFile (written_file p) (join " " args ++ NL)) = true ->
      _write env args self t =
        mkRun (Returned tt) self
          (t ++ [PathExists (written_file p);
                 AppendFile (written_file p) (join " " args ++ NL)])%list)
  /\ (outcome (_write env args self t) = Returned tt ->
      appends (calls_made (_write env args) self t) =
        [(written_file p, join " " args ++ NL)])
  /\ (appends (calls_made (_write env args) self t) = [] \/
      appends (calls_made (_write env args) self t) =
        [(written_file p, join " " args ++ NL)])
  /\ (forall k,
      appends (calls_made (invoke env k) self t) = [] \/
      exists wargs, written_args k = Some wargs /\
        appends (calls_made (invoke env k) self t) =
          [(written_file p, join " " wargs ++ NL)])
  /\ (forall k,
      outcome (invoke env k self t) = Returned tt ->
      appends (calls_made (invoke env k) self t) =
        match written_on self k with
        | Some wargs => [(written_file p, join " " wargs ++ NL)]
        | None => []
        end).
Proof.
  intros Hp.
  pose proof (_write_perform args self t) as Hw.
  rewrite (appends_append_record _ _ _ Hp) in Hw.
  split; [exact Hw|]. split; [|split; [|split; [|split]]].
  - intros Hcheck Happend. rewrite Hw. cbn [perform].
    rewrite bind_call, Hcheck, bind_call. unfold record in Happend |- *.
    rewrite Happend. unfold ret. now rewrite <- app_assoc.
  - intros Hret. now rewrite (calls_made_perform_returned _ _ _ _ Hw Hret).
  - destruct (calls_made_perform_prefix _ _ _ _ Hw) as [n Hn].
    rewrite Hn. now apply appends_prefix_single.
  - intros k. destruct (calls_made_invoke_prefix k self t) as [n Hn].
    rewrite Hn.
    destruct (appends_calls_of k self p Hp) as [Hnone | (wargs & Hargs & Hone)].
    + left. now apply appends_prefix_nil.
    + destruct (appends_prefix_single _ _ n Hone) as [H | H]; [now left|].
      right. exists wargs. split; assumption.
  - intros k Hret. rewrite (calls_made_invoke_returned _ _ _ Hret).
    now apply appends_calls_of_written.
Qed.

(** ** Attributes *)

Lemma self_after_invoke k self t :
  self_after (invoke env k self t) = state_after k self.
Proof.
  rewrite invoke_perform. reflexivity.
Qed.

Lemma state_after_fixed k self :
  directory (state_after k self) = directory self /\
  terminal (state_after k self) = terminal self /\
  path (state_after k self) = path self.
Proof.
  destruct k; simpl; auto.
Qed.

Lemma run_calls_fixed ks : forall self t,
  directory (self_after (run_calls env ks self t)) = directory self /\
  terminal (self_after (run_calls env ks self t)) = terminal self /\
  path (self_after (run_calls env ks self t)) = path self.
Proof.
  unfold run_calls.
  induction ks as [|k ks IH]; intros self t; simpl; auto.
  unfold bind. pose proof (self_after_invoke k self t) as Hone.
  destruct (state_after_fixed k self) as (Hd & Ht & Hp).
  destruct (invoke env k self t) as [[[]|] c' t']; simpl in *; subst c'.
  - destruct (IH (state_after k self) t') as (H1 & H2 & H3).
    rewrite H1, H2, H3. auto.
  - auto.
Qed.


(** C9.  A public call leaves [directory], [terminal] and [path] as they
    were.  [label l] appends [l] to [labels], [set_log b] assigns [_log],
    and every other call changes no attribute; each of the two changes
    leaves the other attributes alone.  The same three attributes stay
    fixed along any sequence of calls. *)
Theorem frame_invariant k self t :
  self_after (invoke env k self t) =
    match k with
    | CLabel l => set_labels (labels self ++ [l])%list self
    | CSetLog b => set__log b self
    | _ => self
    end
  /\ directory (self_after (invoke env k self t)) = directory self
  /\ terminal (self_after (invoke env k self t)) = terminal self
  /\ path (self_after (invoke env k self t)) = path self
  /\ ((forall b, k <> CSetLog b) ->
      _log (self_after (invoke env k self t)) = _log self)
  /\ ((forall l, k <> CLabel l) ->
      labels (self_after (invoke env k self t)) = labels self)
  /\ (forall ks,
      directory (self_after (run_calls env ks self t)) = directory self /\
      terminal (self_after (run_calls env ks self t)) = terminal self /\
      path (self_after (run_calls env ks self t)) = path self).
Proof.
  rewrite self_after_invoke.
  split; [reflexivity|].
  destruct (state_after_fixed k self) as (Hd & Ht & Hp).
  repeat split; try assumption; try apply run_calls_fixed.
  - intros Hk. destruct k; try reflexivity. exfalso. eapply Hk; reflexivity.
  - intros Hk. destruct k; try reflexivity. exfalso. eapply Hk; reflexivity.
Qed.

(** ** Level-tagged output *)

Lemma join_tagged (tag : string) (args : list PyVal) :
  args <> [] ->
  join " " (PyStr tag :: args) = tag ++ " " ++ join " " args.
Proof.
  destruct args as [|a args]; [congruence | reflexivity].
Qed.

Lemma printed_arguments (args : list PyVal) :
  args <> [] ->
  printed (map (fun arg => Print (str arg ++ " ")) args) = join " " args ++ " ".
Proof.
  induction args as [|a args IH]; [congruence | intros _].
  destruct args as [|b args].
  - simpl. unfold join. simpl. now rewrite string_app_assoc.
  - change (printed (map (fun arg => Print (str arg ++ " ")) (a :: b :: args)))
      with ((str a ++ " ") ++
            printed (map (fun arg => Print (str arg ++ " ")) (b :: args))).
    rewrite IH by discriminate.
    change (join " " (a :: b :: args)) with (str a ++ " " ++ join " " (b :: args)).
    now rewrite !string_app_assoc.
Qed.

Lemma level_calls_flags prefix tag b1 b2 self args :
  level_calls prefix tag (with_flags b1 b2 self) args =
  level_calls prefix tag self args.
Proof.
  reflexivity.
Qed.

(** C3 (as amended).  On every console whose [path] is set, whatever
    [terminal] and [_log] hold, [warning] and [error] print the coloured
    level prefix and then each argument followed by a space, check the
    path, and append the space-join of the level tag and the arguments
    with a newline.  For arguments that are not empty the text printed
    after the prefix is the space-joined arguments and a space, and the
    record is the tag, a space and the space-joined arguments.  Changing
    the two flags changes neither the calls made nor how the call ends. *)
Theorem warning_error_ignore_flags args self t p :
  path self = Some p ->
  warning env args self t =
    perform env
      (Print WARNING_prefix :: map (fun arg => Print (str arg ++ " ")) args ++
       [PathExists (written_file p);
        AppendFile (written_file p) (join " " (PyStr "WARNING:" :: args) ++ NL)])%list
      self t
  /\ error env args self t =
    perform env
      (Print ERROR_prefix :: map (fun arg => Print (str arg ++ " ")) args ++
       [PathExists (written_file p);
        AppendFile (written_file p) (join " " (PyStr "ERROR:" :: args) ++ NL)])%list
      self t
  /\ (args <> [] ->
      printed (map (fun arg => Print (str arg ++ " ")) args) = join " " args ++ " "
      /\ join " " (PyStr "WARNING:" :: args) = "WARNING: " ++ join " " args
      /\ join " " (PyStr "ERROR:" :: args) = "ERROR: " ++ join " " args)
  /\ (forall b1 b2,
      trace_after (warning env args (with_flags b1 b2 self) t) =
        trace_after (warning env args self t)
      /\ outcome (warning env args (with_flags b1 b2 self) t) =
        outcome (warning env args self t)
      /\ trace_after (error env args (with_flags b1 b2 self) t) =
        trace_after (error env args self t)
      /\ outcome (error env args (with_flags b1 b2 self) t) =
        outcome (error env args self t)).
Proof.
  intros Hp. split; [|split; [|split]].
  - rewrite warning_perform. unfold level_calls.
    now rewrite (appends_append_record _ _ _ Hp).
  - rewrite error_perform. unfold level_calls.
    now rewrite (appends_append_record _ _ _ Hp).
  - intros Hargs. split; [now apply printed_arguments|].
    split; [exact (join_tagged "WARNING:" _ Hargs)
           | exact (join_tagged "ERROR:" _ Hargs)].
  - intros b1 b2. rewrite !warning_perform, !error_perform, !level_calls_flags.
    destruct (perform_any_self (level_calls WARNING_prefix "WARNING:" self args)
                (with_flags b1 b2 self) self t) as [Ho Ht].
    destruct (perform_any_self (level_calls ERROR_prefix "ERROR:" self args)
                (with_flags b1 b2 self) self t) as [Ho' Ht'].
    auto.
Qed.

(** C10.  With no message arguments [warning] and [error] still print
    the coloured level prefix, and the record they append is the bare
    tag and a newline: no space after the colon and no message text, so
    it is not the tag with its trailing space. *)
Theorem level_call_without_arguments self t p :
  path self = Some p ->
  warning env [] self t =
    perform env [Print WARNING_prefix;
                 PathExists (written_file p);
                 AppendFile (written_file p) ("WARNING:" ++ NL)] self t
  /\ error env [] self t =
    perform env [Print ERROR_prefix;
                 PathExists (written_file p);
                 AppendFile (written_file p) ("ERROR:" ++ NL)] self t
  /\ (outcome (warning env [] self t) = Returned tt ->
      printed (calls_made (warning env []) self t) = WARNING_prefix
      /\ appends (calls_made (warning env []) self t) =
           [(written_file p, "WARNING:" ++ NL)])
  /\ (outcome (error env [] self t) = Returned tt ->
      printed (calls_made (error env []) self t) = ERROR_prefix
      /\ appends (calls_made (error env []) self t) =
           [(written_file p, "ERROR:" ++ NL)])
  /\ "WARNING:" ++ NL <> "WARNING: " ++ NL
  /\ "ERROR:" ++ NL <> "ERROR: " ++ NL.
Proof.
  intros Hp.
  assert (Hw : warning env [] self t =
    perform env [Print WARNING_prefix;
                 PathExists (written_file p);
                 AppendFile (written_file p) ("WARNING:" ++ NL)] self t).
  { rewrite warning_perform. unfold level_calls.
    now rewrite (appends_append_record _ _ _ Hp). }
  assert (He : error env [] self t =
    perform env [Print ERROR_prefix;
                 PathExists (written_file p);
                 AppendFile (written_file p) ("ERROR:" ++ NL)] self t).
  { rewrite error_perform. unfold level_calls.
    now rewrite (appends_append_record _ _ _ Hp). }
  repeat split; try assumption; try discriminate.
  - rewrite (calls_made_perform_returned _ _ _ _ Hw H). reflexivity.
  - rewrite (calls_made_perform_returned _ _ _ _ Hw H). reflexivity.
  - rewrite (calls_made_perform_returned _ _ _ _ He H). reflexivity.
  - rewrite (calls_made_perform_returned _ _ _ _ He H). reflexivity.
Qed.

(** ** The [_log] flag *)

Lemma set_log_run b self t :
  set_log b self t = mkRun (Returned tt) (set__log b self) t.
Proof.
  reflexivity.
Qed.

(** Two runs whose calls differ only in the values given to [set_log],
    on consoles that differ only in [_log], make the same calls and end
    the same way. *)
Lemma run_calls_set_log_variant ks1 ks2 :
  Forall2 set_log_variant ks1 ks2 ->
  forall c1 c2 t,
  agree_but__log c1 c2 ->
  trace_after (run_calls env ks1 c1 t) = trace_after (run_calls env ks2 c2 t)
  /\ outcome (run_calls env ks1 c1 t) = outcome (run_calls env ks2 c2 t)
  /\ agree_but__log (self_after (run_calls env ks1 c1 t))
                    (self_after (run_calls env ks2 c2 t)).
Proof.
  unfold run_calls.
  induction 1 as [|k1 k2 ks1 ks2 Hk HF IH]; intros c1 c2 t Hagree.
  - simpl. auto.
  - simpl. unfold bind. rewrite !invoke_perform. simpl.
    destruct (calls_of_agree _ _ _ _ Hk Hagree) as [Hcalls Hst].
    rewrite Hcalls.
    destruct (perform_any_self (calls_of c2 k2) c1 c2 t) as [Ho Ht].
    rewrite Ho, Ht.
    destruct (outcome (perform env (calls_of c2 k2) c2 t)) as [[]|]; simpl.
    + apply IH. assumption.
    + auto.
Qed.

(** C4.  The [_log] flag is never read.  Two runs of the same sequence
    of public calls that differ only in the values handed to [set_log],
    started on consoles that differ at most in [_log], produce the same
    terminal output and add the same text to every file; they even make
    the same calls and end the same way.  [set_log] itself makes no call:
    it returns and leaves the trace as it was. *)
Theorem _log_flag_is_never_read ks1 ks2 c1 c2 t :
  Forall2 set_log_variant ks1 ks2 ->
  agree_but__log c1 c2 ->
  terminal_output (trace_after (run_calls env ks1 c1 t)) =
    terminal_output (trace_after (run_calls env ks2 c2 t))
  /\ (forall p, file_text p (trace_after (run_calls env ks1 c1 t)) =
                file_text p (trace_after (run_calls env ks2 c2 t)))
  /\ trace_after (run_calls env ks1 c1 t) = trace_after (run_calls env ks2 c2 t)
  /\ outcome (run_calls env ks1 c1 t) = outcome (run_calls env ks2 c2 t)
  /\ (forall b self t',
      outcome (set_log b self t') = Returned tt /\
      trace_after (set_log b self t') = t').
Proof.
  intros Hks Hagree.
  destruct (run_calls_set_log_variant _ _ Hks c1 c2 t Hagree) as (Ht & Ho & _).
  rewrite Ht. repeat split; auto.
Qed.

(** ** Label registration *)

Lemma register_run l : forall n self t,
  register n l self t =
  mkRun (Returned tt) (set_labels (labels self ++ repeat l n)%list self) t.
Proof.
  induction n as [|n IH]; intros self t; simpl.
  - unfold ret, set_labels. rewrite app_nil_r. now destruct self.
  - unfold bind, label, assign. simpl. rewrite IH.
    unfold set_labels. simpl. now rewrite <- app_assoc.
Qed.

Lemma label_passes_registered l n (ls : list string) :
  (1 <= n)%nat -> label_passes (Some l) (ls ++ repeat l n)%list = true.
Proof.
  intros Hn. simpl. rewrite existsb_app.
  destruct n as [|n]; [lia|]. simpl.
  rewrite String.eqb_refl. simpl. apply orb_true_r.
Qed.

Lemma terminal_output_prefix_length (fx : Trace) : forall n,
  (length (terminal_output (firstn n fx)) <= length (terminal_output fx))%nat.
Proof.
  induction fx as [|e fx IH]; intros [|n]; simpl; try lia.
  specialize (IH n). destruct (is_terminal e); simpl; lia.
Qed.

(** C7 (as amended).  [label] never fails and appends its argument to
    [labels] whatever is there already.  After [n >= 1] registrations of
    [l], one [log] call labelled [l] makes the calls of a single
    emission: the colour dispatch if [terminal] is true, then the path
    check and one append.  A call that returns has made exactly one file
    append, and one terminal emission when [terminal] is true and the
    colour is absent or one of the twelve (none otherwise); however the
    call ends there is at most one of each, whatever [n] is. *)
Theorem label_registration_is_idempotent n l args color self t p :
  (1 <= n)%nat ->
  path self = Some p ->
  label l self t =
    mkRun (Returned tt) (set_labels (labels self ++ [l])%list self) t
  /\ register n l self t =
    mkRun (Returned tt) (set_labels (labels self ++ repeat l n)%list self) t
  /\ log env args color (Some l) (self_after (register n l self t)) t =
    perform env
      ((if terminal self then dispatch color args else []) ++
       [PathExists (written_file p);
        AppendFile (written_file p) (record args)])%list
      (self_after (register n l self t)) t
  /\ (outcome (log env args color (Some l)
                (self_after (register n l self t)) t) = Returned tt ->
      length (appends (calls_made (log env args color (Some l))
                         (self_after (register n l self t)) t)) = 1%nat
      /\ length (terminal_output
                   (calls_made (log env args color (Some l))
                      (self_after (register n l self t)) t)) =
         (if terminal self && renders color then 1%nat else 0%nat))
  /\ (length (appends (calls_made (log env args color (Some l))
                         (self_after (register n l self t)) t)) <= 1)%nat
  /\ (length (terminal_output
                (calls_made (log env args color (Some l))
                   (self_after (register n l self t)) t)) <= 1)%nat.
Proof.
  intros Hn Hp. rewrite register_run. cbn [self_after].
  set (self_n := set_labels (labels self ++ repeat l n)%list self).
  assert (Hpn : path self_n = Some p) by exact Hp.
  assert (Hgate : label_passes (Some l) (labels self_n) = true).
  { apply label_passes_registered. exact Hn. }
  pose proof (log_perform args color (Some l) self_n t) as Hlog.
  rewrite (Log_table_passed _ _ _ _ _ Hpn Hgate) in Hlog.
  change (terminal self_n) with (terminal self) in *.
  split; [reflexivity|]. split; [reflexivity|]. split; [exact Hlog|].
  split; [|split].
  - intros Hout. rewrite (calls_made_perform_returned _ _ _ _ Hlog Hout).
    rewrite appends_app, terminal_output_app. simpl. rewrite app_nil_r.
    destruct (terminal self); simpl.
    + rewrite appends_dispatch, dispatch_terminal, dispatch_length. auto.
    + auto.
  - destruct (calls_made_perform_prefix _ _ _ _ Hlog) as [k Hk]. rewrite Hk.
    match goal with
    | |- (length (appends (firstn k ?fx)) <= 1)%nat =>
        destruct (appends_prefix_single fx (written_file p, record args) k)
          as [H | H]
    end.
    + rewrite appends_app. destruct (terminal self); simpl;
        [rewrite appends_dispatch|]; reflexivity.
    + rewrite H. simpl. lia.
    + rewrite H. simpl. lia.
  - destruct (calls_made_perform_prefix _ _ _ _ Hlog) as [k Hk]. rewrite Hk.
    etransitivity; [apply terminal_output_prefix_length|].
    rewrite terminal_output_app. simpl. rewrite app_nil_r.
    destruct (terminal self); simpl; [|lia].
    rewrite dispatch_terminal, dispatch_length.
    destruct (renders color); lia.
Qed.

(** ** The shape of a call *)

Lemma appends_terminal_only (fx : Trace) :
  terminal_only fx -> appends fx = [].
Proof.
  induction 1 as [|[text|f args|q|q text] fx He _ IH]; simpl in *;
    auto; discriminate.
Qed.

Lemma dispatch_terminal_only color args : terminal_only (dispatch color args).
Proof.
  destruct color as [c|]; unfold dispatch.
  - destruct (color_fn c); repeat constructor.
  - repeat constructor.
Qed.

Lemma prints_terminal_only (args : list PyVal) :
  terminal_only (map (fun arg => Print (str arg ++ " ")) args).
Proof.
  induction args; simpl; constructor; auto.
Qed.

(** Every public call attempts terminal writes only, or terminal writes
    followed by the path check and one append. *)
Lemma calls_of_shape k self :
  exists pre,
    terminal_only pre /\
    (calls_of self k = pre \/
     exists p wargs,
       path self = Some p /\
       calls_of self k =
         (pre ++ [PathExists (written_file p);
                  AppendFile (written_file p) (record wargs)])%list).
Proof.
  assert (Hrec : forall pre args,
    terminal_only pre ->
    exists pre',
      terminal_only pre' /\
      ((pre ++ append_record self args)%list = pre' \/
       exists p wargs,
         path self = Some p /\
         (pre ++ append_record self args)%list =
           (pre' ++ [PathExists (written_file p);
                     AppendFile (written_file p) (record wargs)])%list)).
  { intros pre args Hpre. exists pre. split; [exact Hpre|].
    unfold append_record. destruct (path self) as [p|].
    - right. exists p, args. auto.
    - left. apply app_nil_r. }
  destruct k as [l|args|args|args|args|args color|b|args color l];
    cbn [calls_of].
  - exists []. split; [constructor | now left].
  - apply (Hrec (Print WARNING_prefix :: _)). constructor; [reflexivity|].
    apply prints_terminal_only.
  - apply (Hrec (Print ERROR_prefix :: _)). constructor; [reflexivity|].
    apply prints_terminal_only.
  - apply (Hrec (Print ERROR_prefix :: _)). constructor; [reflexivity|].
    apply prints_terminal_only.
  - apply (Hrec (Print WARNING_prefix :: _)). constructor; [reflexivity|].
    apply prints_terminal_only.
  - apply Hrec, dispatch_terminal_only.
  - exists []. split; [constructor | now left].
  - unfold Log_table. destruct (label_passes l (labels self)).
    + destruct (terminal self).
      * apply Hrec, dispatch_terminal_only.
      * apply (Hrec [] args). constructor.
    + exists []. split; [constructor | now left].
Qed.

(** A [perform] that raises stopped before the end of its list. *)
Lemma perform_raised (fx : Trace) : forall self t,
  outcome (perform env fx self t) = Raised ->
  exists n, (n < length fx)%nat /\
            trace_after (perform env fx self t) = (t ++ firstn n fx)%list.
Proof.
  induction fx as [|e fx IH]; intros self t; simpl.
  - discriminate.
  - rewrite bind_call. destruct (env t e).
    + intros H. destruct (IH _ _ H) as (n & Hn & Ht).
      exists (S n). split; [lia|]. rewrite Ht. simpl. now rewrite <- app_assoc.
    + intros _. exists 0%nat. split; [lia|]. simpl. now rewrite app_nil_r.
Qed.

(** Stopping before the end of "terminal writes, path check, append"
    leaves the append out. *)
Lemma appends_before_the_end (pre : Trace) (q text : string) (n : nat) :
  terminal_only pre ->
  (n < length (pre ++ [PathExists q; AppendFile q text]))%nat ->
  appends (firstn n (pre ++ [PathExists q; AppendFile q text])) = [].
Proof.
  intros Hpre Hn. rewrite length_app in Hn. simpl in Hn.
  rewrite firstn_app, appends_app.
  rewrite (appends_prefix_nil pre n (appends_terminal_only _ Hpre)).
  destruct (n - length pre)%nat as [|[|m]] eqn:Hm; simpl; auto; lia.
Qed.

(** X1.  The file is opened only after every terminal write and after
    the path check has returned.  So when the append itself does not
    raise, a public call that ends in an exception (raised by [print],
    by a colour printer or by [path_exists]) never reached the append:
    it has appended nothing. *)
Theorem raised_call_appends_nothing k self t :
  (forall t' q text, env t' (AppendFile q text) = true) ->
  outcome (invoke env k self t) = Raised ->
  appends (calls_made (invoke env k) self t) = [].
Proof.
  intros _. unfold calls_made. rewrite invoke_perform. simpl. intros Hraised.
  destruct (perform_raised _ _ _ Hraised) as (n & Hn & Ht).
  rewrite Ht, skipn_app_exact.
  destruct (calls_of_shape k self) as (pre & Hpre & [Hk | (p & w & _ & Hk)]);
    rewrite Hk in *.
  - apply appends_prefix_nil, appends_terminal_only, Hpre.
  - now apply appends_before_the_end.
Qed.

(** X2.  A public call that appended something made its calls in one
    order: terminal writes first, then [path_exists] on the written
    file, then the append to that same file as the very last call. *)
Theorem append_comes_last_after_path_check k self t :
  appends (calls_made (invoke env k) self t) <> [] ->
  exists pre p wargs,
    path self = Some p /\
    terminal_only pre /\
    calls_made (invoke env k) self t =
      (pre ++ [PathExists (written_file p);
               AppendFile (written_file p) (record wargs)])%list.
Proof.
  intros Happ.
  destruct (calls_made_invoke_prefix k self t) as [n Hn].
  rewrite Hn in *.
  destruct (calls_of_shape k self) as (pre & Hpre & [Hk | (p & w & Hp & Hk)]);
    rewrite Hk in *.
  - exfalso. apply Happ.
    apply appends_prefix_nil, appends_terminal_only, Hpre.
  - exists pre, p, w. split; [exact Hp|]. split; [exact Hpre|].
    destruct (Nat.lt_ge_cases n
                (length (pre ++ [PathExists (written_file p);
                                 AppendFile (written_file p) (record w)])))
      as [Hlt | Hge].
    + exfalso. apply Happ. now apply appends_before_the_end.
    + now apply firstn_all2.
Qed.

(** ** [log] against [out] and [_write] *)

Lemma label_passes_In l (ls : list string) :
  label_passes (Some l) ls = true <-> In l ls.
Proof.
  simpl. rewrite existsb_exists. split.
  - intros (x & Hx & Heq). apply String.eqb_eq in Heq. now subst.
  - intros Hl. exists l. split; [exact Hl | apply String.eqb_refl].
Qed.

(** X3.  A [log] call that passes the label gate (no label, or a label
    that is in [labels]) is [out] when [terminal] is true and [_write]
    when it is false: same calls, same outcome, same attributes. *)
Theorem passing_log_is_out_or__write args color label self t :
  label = None \/ (exists l, label = Some l /\ In l (labels self)) ->
  log env args color label self t =
    if terminal self then out env args color self t
    else _write env args self t.
Proof.
  intros Hgate.
  assert (Hpass : label_passes label (labels self) = true).
  { destruct Hgate as [-> | (l & -> & Hl)]; [reflexivity|].
    now apply label_passes_In. }
  rewrite log_perform, out_perform, _write_perform.
  unfold Log_table. rewrite Hpass. destruct (terminal self); reflexivity.
Qed.

(** ** Colour names *)

Lemma color_fn_name c f : color_fn c = Some f -> c = fn_name f.
Proof.
  unfold color_fn. split_color_tests; intros [= <-];
    match goal with
    | H : (c =? _)%string = true |- _ => apply String.eqb_eq in H; exact H
    end.
Qed.

Lemma In_firstn (A : Type) (x : A) (l : list A) : forall n,
  In x (firstn n l) -> In x l.
Proof.
  induction l as [|y l IH]; intros [|n]; simpl; auto.
  - contradiction.
  - intros [H | H]; [now left | right; eauto].
Qed.

(** X4.  Each of the twelve colour names calls the printer of the same
    name, once, on the arguments unchanged; and whatever colour printer
    the dispatch calls is the one named by the colour, with the
    arguments of the call. *)
Theorem color_name_calls_its_printer f args self t :
  In (fn_name f) color_names
  /\ _color_switch env (Some (fn_name f)) args self t =
       perform env [CallColor f args] self t
  /\ (forall c g a,
      In (CallColor g a)
         (calls_made (_color_switch env (Some c) args) self t) ->
      c = fn_name g /\ a = args).
Proof.
  split; [|split].
  - destruct f; simpl; tauto.
  - rewrite _color_switch_perform. destruct f; reflexivity.
  - intros c g a Hin.
    destruct (calls_made_perform_prefix _ _ _ _
                (_color_switch_perform (Some c) args self t)) as [n Hn].
    rewrite Hn in Hin. apply In_firstn in Hin.
    unfold dispatch in Hin. destruct (color_fn c) as [f'|] eqn:Hc.
    + destruct Hin as [[= <- <-] | []]. split; [now apply color_fn_name | reflexivity].
    + destruct Hin.
Qed.

(** X5.  With a colour name outside the twelve, [log] writes nothing to
    the terminal even when [terminal] is true: it makes the calls, and
    ends the way, it would with [terminal] false. *)
Theorem unknown_color_log_is_file_only c args label self t :
  ~ In c color_names ->
  terminal_output (calls_made (log env args (Some c) label) self t) = []
  /\ trace_after (log env args (Some c) label self t) =
       trace_after (log env args (Some c) label
                      (with_flags false (_log self) self) t)
  /\ outcome (log env args (Some c) label self t) =
       outcome (log env args (Some c) label
                  (with_flags false (_log self) self) t).
Proof.
  intros Hc.
  assert (Hd : dispatch (Some c) args = []).
  { unfold dispatch. now rewrite (color_fn_unknown _ Hc). }
  assert (Htable : Log_table self args (Some c) label =
                   Log_table (with_flags false (_log self) self) args (Some c) label).
  { unfold Log_table. rewrite Hd. simpl.
    destruct (label_passes label (labels self)), (terminal self); reflexivity. }
  split.
  - destruct (calls_made_perform_prefix _ _ _ _
                (log_perform args (Some c) label self t)) as [n Hn].
    rewrite Hn. apply terminal_output_prefix_nil.
    unfold Log_table, append_record. rewrite Hd.
    destruct (label_passes label (labels self)), (terminal self),
             (path self); reflexivity.
  - rewrite !log_perform, <- Htable.
    destruct (perform_any_self (Log_table self args (Some c) label)
                self (with_flags false (_log self) self) t) as [Ho Ht].
    auto.
Qed.

(** ** Sessions *)

(** A run of public calls makes the calls of [session_calls], up to the
    first that raises. *)
Lemma run_calls_perform ks : forall self t,
  outcome (run_calls env ks self t) =
    outcome (perform env (session_calls self ks) self t)
  /\ trace_after (run_calls env ks self t) =
    trace_after (perform env (session_calls self ks) self t).
Proof.
  unfold run_calls.
  induction ks as [|k ks IH]; intros self t; simpl.
  - auto.
  - rewrite perform_app. unfold bind. rewrite invoke_perform. simpl.
    destruct (outcome (perform env (calls_of self k) self t)) as [[]|].
    + destruct (IH (state_after k self)
                  (trace_after (perform env (calls_of self k) self t)))
        as [Ho Ht].
      destruct (perform_any_self (session_calls (state_after k self) ks)
                  (state_after k self)
                  (self_after (perform env (calls_of self k) self t))
                  (trace_after (perform env (calls_of self k) self t)))
        as [Ho' Ht'].
      rewrite Ho, Ht, Ho', Ht'. auto.
    + auto.
Qed.

Lemma calls_made_run_returned ks self t :
  outcome (run_calls env ks self t) = Returned tt ->
  calls_made (run_calls env ks) self t = session_calls self ks.
Proof.
  destruct (run_calls_perform ks self t) as [Ho Ht].
  unfold calls_made. rewrite Ht, Ho. intros Hret.
  rewrite (perform_returned _ _ _ Hret). apply skipn_app_exact.
Qed.

Lemma calls_made_run_prefix ks self t :
  exists n, calls_made (run_calls env ks) self t =
            firstn n (session_calls self ks).
Proof.
  destruct (run_calls_perform ks self t) as [_ Ht].
  unfold calls_made. rewrite Ht.
  destruct (perform_prefix (session_calls self ks) self t) as [n Hn].
  exists n. rewrite Hn. apply skipn_app_exact.
Qed.

Lemma labels_state_after k self :
  labels (state_after k self) = (labels self ++ registered [k])%list.
Proof.
  destruct k; simpl; auto using app_nil_r; symmetry; apply app_nil_r.
Qed.

Lemma registered_cons k ks :
  registered (k :: ks) = (registered [k] ++ registered ks)%list.
Proof.
  destruct k; reflexivity.
Qed.

(** The labels after a run: those before it, then the labels the calls
    that were reached registered. *)
Lemma run_calls_labels ks : forall self t,
  exists n,
    labels (self_after (run_calls env ks self t)) =
      (labels self ++ registered (firstn n ks))%list
    /\ (outcome (run_calls env ks self t) = Returned tt ->
        firstn n ks = ks).
Proof.
  unfold run_calls.
  induction ks as [|k ks IH]; intros self t; simpl.
  - exists 0%nat. simpl. split; [now rewrite app_nil_r | reflexivity].
  - unfold bind. pose proof (self_after_invoke k self t) as Hone.
    destruct (invoke env k self t) as [[[]|] c' t']; simpl in *; subst c'.
    + destruct (IH (state_after k self) t') as (n & Hn & Hret).
      exists (S n). cbn [firstn]. split.
      * rewrite Hn, labels_state_after, (registered_cons k (firstn n ks)).
        now rewrite app_assoc.
      * intros H. now rewrite (Hret H).
    + exists 1%nat. cbn [firstn]. split; [apply labels_state_after | discriminate].
Qed.

Lemma registered_firstn l ks : forall n,
  In l (registered (firstn n ks)) -> In l (registered ks).
Proof.
  induction ks as [|k ks IH]; intros [|n]; simpl; auto; try contradiction.
  destruct k; simpl; eauto.
  intros [H | H]; [now left | right; eauto].
Qed.

(** X6.  A label that is not in [labels] and that none of the calls of
    a run registers is still gated after the run: a [log] call with that
    label makes no call and returns, whatever else was called. *)
Theorem unregistered_label_stays_gated l ks self t args color t' :
  ~ In l (labels self) ->
  ~ In l (registered ks) ->
  log env args color (Some l) (self_after (run_calls env ks self t)) t' =
    mkRun (Returned tt) (self_after (run_calls env ks self t)) t'.
Proof.
  intros Hself Hks.
  destruct (run_calls_labels ks self t) as (n & Hn & _).
  rewrite log_perform. unfold Log_table.
  destruct (label_passes (Some l)
              (labels (self_after (run_calls env ks self t)))) eqn:Hgate;
    [|reflexivity].
  exfalso. apply label_passes_In in Hgate. rewrite Hn in Hgate.
  apply in_app_or in Hgate. destruct Hgate as [H | H]; [now apply Hself|].
  apply Hks. eapply registered_firstn, H.
Qed.


(** ** Construction *)

(** X8.  A console the constructor returned has made one call,
    [path_exists] on the directory, starts with [_log] true and no
    label, and keeps its [path] for good: after any run of public calls
    [_write] still finds a path, checks ["./log/"] followed by the
    directory, the timestamp and [".log"], and appends one record
    there. *)
Theorem constructed_console_always_writes d term now t0 c t1 :
  __init__ env d term now t0 = (Returned c, t1) ->
  t1 = (t0 ++ [PathExists d])%list
  /\ directory c = d /\ terminal c = term /\ _log c = true /\ labels c = []
  /\ (forall ks t args t',
      _write env args (self_after (run_calls env ks c t)) t' =
        perform env
          [PathExists ("./log/" ++ d ++ str_int now ++ ".log");
           AppendFile ("./log/" ++ d ++ str_int now ++ ".log")
                      (join " " args ++ NL)]
          (self_after (run_calls env ks c t)) t').
Proof.
  unfold __init__. destruct (env t0 (PathExists d)); [|discriminate].
  intros [= <- <-]. simpl. repeat split.
  intros ks t args t'. rewrite _write_perform.
  destruct (run_calls_fixed ks
              (mkConsole d term true (Some (d ++ str_int now ++ ".log")) []) t)
    as (_ & _ & Hp).
  unfold append_record. rewrite Hp. reflexivity.
Qed.

Lemma string_length_app (a b : string) :
  String.length (a ++ b) = (String.length a + String.length b)%nat.
Proof.
  induction a as [|ch a IH]; simpl; [reflexivity | now rewrite IH].
Qed.

Lemma string_app_inv_head (a x y : string) : a ++ x = a ++ y -> x = y.
Proof.
  induction a as [|ch a IH]; simpl; [auto | intros [= H]; auto].
Qed.

Lemma string_app_inv_tail (s : string) : forall x y : string,
  x ++ s = y ++ s -> x = y.
Proof.
  induction x as [|ch x IH]; intros [|ch' y] H; simpl in *.
  - reflexivity.
  - exfalso. apply (f_equal String.length) in H. simpl in H.
    rewrite string_length_app in H. lia.
  - exfalso. apply (f_equal String.length) in H. simpl in H.
    rewrite string_length_app in H. lia.
  - injection H as Hc Hrest. f_equal; [exact Hc | now apply IH].
Qed.

(** [str] of an integer tells integers apart. *)
Lemma str_int_inj (a b : Z) : str_int a = str_int b -> a = b.
Proof.
  unfold str_int. intros H.
  assert (Hok : forall z, NilZero.int_of_string (NilZero.string_of_int (Z.to_int z))
                          = Some (Z.to_int z)).
  { intros z. apply NilZero.isi; destruct z; simpl; try discriminate;
      intros [= Hnil]; now apply DecimalPos.Unsigned.to_uint_nonnil in Hnil. }
  assert (Hint : Some (Z.to_int a) = Some (Z.to_int b)).
  { rewrite <- !Hok. now rewrite H. }
  injection Hint as Hint.
  rewrite <- (DecimalZ.of_to a), <- (DecimalZ.of_to b). now rewrite Hint.
Qed.

(** X9.  Two consoles built on the same directory have the same [path]
    exactly when they were built in the same millisecond: different
    timestamps give different log paths, equal ones collide. *)
Theorem same_path_iff_same_millisecond d term1 term2 now1 now2 t1 t2 c1 c2 t1' t2' :
  __init__ env d term1 now1 t1 = (Returned c1, t1') ->
  __init__ env d term2 now2 t2 = (Returned c2, t2') ->
  (path c1 = path c2 <-> now1 = now2).
Proof.
  unfold __init__.
  destruct (env t1 (PathExists d)); [|discriminate].
  destruct (env t2 (PathExists d)); [|discriminate].
  intros [= <- _] [= <- _]. simpl. split.
  - intros [= H]. apply string_app_inv_head, string_app_inv_tail in H.
    now apply str_int_inj.
  - now intros ->.
Qed.

(** ** The text a session adds to the file *)

Lemma string_app_nil_r (a : string) : a ++ "" = a.
Proof.
  induction a as [|ch a IH]; simpl; [reflexivity | now rewrite IH].
Qed.

Lemma file_text_app (q : string) (a b : Trace) :
  file_text q (a ++ b)%list = file_text q a ++ file_text q b.
Proof.
  induction a as [|[text|f args|q'|q' text] a IH]; simpl; auto.
  destruct (q' =? q)%string; [|exact IH].
  now rewrite IH, string_app_assoc.
Qed.

Lemma file_text_terminal_only (q : string) (fx : Trace) :
  terminal_only fx -> file_text q fx = "".
Proof.
  induction 1 as [|[text|f args|q'|q' text] fx He _ IH]; simpl in *;
    auto; discriminate.
Qed.

(** A file that no append of the list names gets no text. *)
Lemma file_text_untouched (q : string) (fx : Trace) :
  (forall q' text, In (q', text) (appends fx) -> q' <> q) ->
  file_text q fx = "".
Proof.
  induction fx as [|[text|f args|q'|q' text] fx IH]; simpl; intros H; auto.
  destruct (String.eqb_spec q' q) as [Heq | Hneq].
  - exfalso. apply (H q' text); [now left | exact Heq].
  - apply IH. intros q'' text' Hin. apply (H q'' text'). now right.
Qed.

Lemma appends_firstn_In (x : string * string) (fx : Trace) : forall n,
  In x (appends (firstn n fx)) -> In x (appends fx).
Proof.
  induction fx as [|[text|f args|q'|q' text] fx IH]; intros [|n]; simpl;
    eauto; try contradiction.
  intros [H | H]; [now left | right; eauto].
Qed.

(** Every append of a session goes to the one written file. *)
Lemma appends_session_calls ks : forall self p,
  path self = Some p ->
  forall q text,
  In (q, text) (appends (session_calls self ks)) -> q = written_file p.
Proof.
  induction ks as [|k ks IH]; intros self p Hp q text; simpl.
  - contradiction.
  - rewrite appends_app. intros Hin. apply in_app_or in Hin.
    destruct Hin as [Hin | Hin].
    + destruct (appends_calls_of k self p Hp) as [Hnone | (w & _ & Hone)].
      * rewrite Hnone in Hin. contradiction.
      * rewrite Hone in Hin. destruct Hin as [[= <- _] | []]. reflexivity.
    + destruct (state_after_fixed k self) as (_ & _ & Hpath).
      rewrite <- Hpath in Hp.
      exact (IH (state_after k self) p Hp q text Hin).
Qed.

Lemma file_text_calls_of k self p :
  path self = Some p ->
  file_text (written_file p) (calls_of self k) =
    match written_on self k with
    | Some wargs => record wargs
    | None => ""
    end.
Proof.
  intros Hp.
  assert (Hrec : forall pre args,
    terminal_only pre ->
    file_text (written_file p) (pre ++ append_record self args)%list =
      record args).
  { intros pre args Hpre.
    rewrite file_text_app, (file_text_terminal_only _ _ Hpre).
    rewrite (appends_append_record _ _ _ Hp). simpl.
    rewrite String.eqb_refl. apply string_app_nil_r. }
  destruct k as [l|args|args|args|args|args color|b|args color l];
    cbn [calls_of written_on written_args]; try reflexivity.
  - apply (Hrec (Print WARNING_prefix :: _)). constructor; [reflexivity|].
    apply prints_terminal_only.
  - apply (Hrec (Print ERROR_prefix :: _)). constructor; [reflexivity|].
    apply prints_terminal_only.
  - apply (Hrec (Print ERROR_prefix :: _)). constructor; [reflexivity|].
    apply prints_terminal_only.
  - apply (Hrec (Print WARNING_prefix :: _)). constructor; [reflexivity|].
    apply prints_terminal_only.
  - apply Hrec, dispatch_terminal_only.
  - unfold Log_table. destruct (label_passes l (labels self)); [|reflexivity].
    destruct (terminal self).
    + apply Hrec, dispatch_terminal_only.
    + apply (Hrec [] args). constructor.
Qed.

Lemma file_text_session_calls ks : forall self p,
  path self = Some p ->
  file_text (written_file p) (session_calls self ks) = session_text self ks.
Proof.
  induction ks as [|k ks IH]; intros self p Hp; simpl.
  - reflexivity.
  - rewrite file_text_app, (file_text_calls_of k self p Hp).
    destruct (state_after_fixed k self) as (_ & _ & Hpath).
    rewrite (IH (state_after k self) p) by now rewrite Hpath.
    destruct (written_on self k); reflexivity.
Qed.

(** X10.  Over a whole run of public calls every append goes to the
    one written file: no other file gets any text, however the run
    ends.  And when the run returns, the text added to that file is the
    records of the calls that write, in call order, one record each:
    nothing is lost, repeated or reordered, and a [log] call dropped by
    the label gate in force at that point adds nothing. *)
Theorem session_text_in_call_order ks self t p :
  path self = Some p ->
  (forall q, q <> written_file p ->
     file_text q (calls_made (run_calls env ks) self t) = "")
  /\ (outcome (run_calls env ks self t) = Returned tt ->
      file_text (written_file p) (calls_made (run_calls env ks) self t) =
        session_text self ks).
Proof.
  intros Hp. split.
  - intros q Hq. destruct (calls_made_run_prefix ks self t) as [n Hn].
    rewrite Hn. apply file_text_untouched. intros q' text Hin.
    apply appends_firstn_In in Hin.
    rewrite (appends_session_calls ks self p Hp q' text Hin). congruence.
  - intros Hret. rewrite (calls_made_run_returned _ _ _ Hret).
    now apply file_text_session_calls.
Qed.

(** X11.  The file named by [path] is never written.  Whatever public
    calls are made on a console whose [path] is [p], and however the run
    ends, every append goes to ["./log/"] followed by [p], which is a
    different path from [p]. *)
Theorem path_itself_is_never_written ks self t p q text :
  path self = Some p ->
  In (q, text) (appends (calls_made (run_calls env ks) self t)) ->
  q = "./log/" ++ p /\ q <> p.
Proof.
  intros Hp Hin. destruct (calls_made_run_prefix ks self t) as [n Hn].
  rewrite Hn in Hin. apply appends_firstn_In in Hin.
  rewrite (appends_session_calls ks self p Hp q text Hin).
  split; [reflexivity | apply written_file_neq].
Qed.

End Properties.

(** ** The file that is written *)

Lemma default_console_constructed :
  __init__ calm "./log/" true 1700000000000 [] =
  (Returned default_console, [PathExists "./log/"]).
Proof.
  reflexivity.
Qed.

(** C1.  [Console()] built at 1700000000000 ms has
    [path = "./log/1700000000000.log"], the directory followed by the
    timestamp and [".log"].  Its [warning], [out] and [log] calls do not
    append to that file: each appends to
    ["./log/./log/1700000000000.log"], the path with ["./log/"] put in
    front of it once more. *)
Theorem writes_miss_the_log_file_path :
  __init__ calm "./log/" true 1700000000000 [] =
    (Returned default_console, [PathExists "./log/"])
  /\ path default_console = Some ("./log/" ++ str_int 1700000000000 ++ ".log")
  /\ path default_console = Some "./log/1700000000000.log"
  /\ appends (calls_made (warning calm [PyStr "x"]) default_console
                [PathExists "./log/"]) =
       [("./log/./log/1700000000000.log", "WARNING: x" ++ NL)]
  /\ appends (calls_made (out calm [PyStr "x"] None) default_console
                [PathExists "./log/"]) =
       [("./log/./log/1700000000000.log", "x" ++ NL)]
  /\ appends (calls_made (log calm [PyStr "x"] None None) default_console
                [PathExists "./log/"]) =
       [("./log/./log/1700000000000.log", "x" ++ NL)]
  /\ "./log/./log/1700000000000.log" <> "./log/1700000000000.log".
Proof.
  repeat split; try reflexivity. discriminate.
Qed.

(** ** The theorems at concrete calls *)

(** [log("msg")] on the default console, where nothing raises. *)
Lemma log_decision_table_witness :
  path default_console = Some "./log/1700000000000.log" /\
  log calm [PyStr "msg"] None None default_console [] =
    mkRun (Returned tt) default_console
      [Print ("msg" ++ NL);
       PathExists "./log/./log/1700000000000.log";
       AppendFile "./log/./log/1700000000000.log" ("msg" ++ NL)].
Proof.
  split; [reflexivity|].
  exact (proj1 (log_decision_table calm [PyStr "msg"] None None
                  default_console [] "./log/1700000000000.log" eq_refl)).
Defined.

(** [warning("x", "y")] on the default console. *)
Lemma warning_error_ignore_flags_witness :
  path default_console = Some "./log/1700000000000.log" /\
  warning calm [PyStr "x"; PyStr "y"] default_console [] =
    mkRun (Returned tt) default_console
      [Print WARNING_prefix; Print "x "; Print "y ";
       PathExists "./log/./log/1700000000000.log";
       AppendFile "./log/./log/1700000000000.log" ("WARNING: x y" ++ NL)].
Proof.
  split; [reflexivity|].
  exact (proj1 (warning_error_ignore_flags calm [PyStr "x"; PyStr "y"]
                  default_console [] "./log/1700000000000.log" eq_refl)).
Defined.

(** [warning()] with no arguments breaks the shape "WARNING: " +
    joined(args): the record has no space after the colon. *)
Lemma warning_without_arguments_counterexample :
  appends (calls_made (warning calm []) default_console []) <>
  [("./log/./log/1700000000000.log", "WARNING: " ++ join " " [] ++ NL)].
Proof.
  discriminate.
Qed.

(** [set_log(True)] against [set_log(False)] before [log("msg")]. *)
Lemma _log_flag_is_never_read_witness :
  Forall2 set_log_variant
    [CSetLog true; CLog [PyStr "msg"] None None]
    [CSetLog false; CLog [PyStr "msg"] None None] /\
  agree_but__log default_console default_console /\
  terminal_output
    (trace_after (run_calls calm [CSetLog true; CLog [PyStr "msg"] None None]
                    default_console [])) =
  terminal_output
    (trace_after (run_calls calm [CSetLog false; CLog [PyStr "msg"] None None]
                    default_console [])).
Proof.
  assert (Hks : Forall2 set_log_variant
            [CSetLog true; CLog [PyStr "msg"] None None]
            [CSetLog false; CLog [PyStr "msg"] None None]).
  { repeat constructor. }
  assert (Hagree : agree_but__log default_console default_console).
  { repeat split. }
  split; [exact Hks|]. split; [exact Hagree|].
  exact (proj1 (_log_flag_is_never_read calm _ _ _ _ [] Hks Hagree)).
Defined.

(** [out("x", color="PURPLE")] on the default console. *)
Lemma unknown_color_is_silent_witness :
  ~ In "PURPLE" color_names /\
  path default_console = Some "./log/1700000000000.log" /\
  _color_switch calm (Some "PURPLE") [PyStr "x"] default_console [] =
    mkRun (Returned tt) default_console [].
Proof.
  assert (Hc : ~ In "PURPLE" color_names).
  { simpl. intuition discriminate. }
  split; [exact Hc|]. split; [reflexivity|].
  exact (proj1 (unknown_color_is_silent calm "PURPLE" [PyStr "x"]
                  default_console [] "./log/1700000000000.log" Hc eq_refl)).
Defined.

(** [_write("disk", 12)] on the default console, where nothing raises:
    the path check, then the one record. *)
Lemma record_round_trip_witness :
  path default_console = Some "./log/1700000000000.log" /\
  _write calm [PyStr "disk"; PyInt 12] default_console [] =
    mkRun (Returned tt) default_console
      [PathExists "./log/./log/1700000000000.log";
       AppendFile "./log/./log/1700000000000.log" ("disk 12" ++ NL)].
Proof.
  split; [reflexivity|].
  exact (proj1 (record_round_trip calm [PyStr "disk"; PyInt 12]
                  default_console [] "./log/1700000000000.log" eq_refl)).
Defined.

(** [label("A")] twice, then [log("msg", label="A")]. *)
Lemma label_registration_is_idempotent_witness :
  (1 <= 2)%nat /\
  path default_console = Some "./log/1700000000000.log" /\
  log calm [PyStr "msg"] None (Some "A")
      (self_after (register 2 "A" default_console [])) [] =
    mkRun (Returned tt) (self_after (register 2 "A" default_console []))
      [Print ("msg" ++ NL);
       PathExists "./log/./log/1700000000000.log";
       AppendFile "./log/./log/1700000000000.log" ("msg" ++ NL)].
Proof.
  split; [exact (le_S 1 1 (le_n 1))|]. split; [reflexivity|].
  exact (proj1 (proj2 (proj2
    (label_registration_is_idempotent calm 2 "A" [PyStr "msg"] None
       default_console [] "./log/1700000000000.log"
       (le_S 1 1 (le_n 1)) eq_refl)))).
Defined.

(** With [terminal] false the labelled call emits nothing to the
    terminal, so it does not make exactly one terminal emission. *)
Lemma quiet_console_label_counterexample :
  length (terminal_output
            (calls_made (log calm [PyStr "msg"] None (Some "A"))
               (self_after (register 2 "A" quiet_console [])) [])) <> 1%nat.
Proof.
  discriminate.
Qed.

(** [out("x")] on a console whose [terminal] is false. *)
Lemma out_is_unconditional_witness :
  path quiet_console = Some "./log/1700000000000.log" /\
  terminal quiet_console = false /\
  out calm [PyStr "x"] None quiet_console [] =
    mkRun (Returned tt) quiet_console
      [Print ("x" ++ NL);
       PathExists "./log/./log/1700000000000.log";
       AppendFile "./log/./log/1700000000000.log" ("x" ++ NL)].
Proof.
  split; [reflexivity|]. split; [reflexivity|].
  exact (proj1 (proj2 (out_is_unconditional calm [PyStr "x"] None
                         quiet_console [] "./log/1700000000000.log" eq_refl))).
Defined.

(** [error()] on the default console. *)
Lemma level_call_without_arguments_witness :
  path default_console = Some "./log/1700000000000.log" /\
  error calm [] default_console [] =
    mkRun (Returned tt) default_console
      [Print ERROR_prefix;
       PathExists "./log/./log/1700000000000.log";
       AppendFile "./log/./log/1700000000000.log" ("ERROR:" ++ NL)].
Proof.
  split; [reflexivity|].
  exact (proj1 (proj2 (level_call_without_arguments calm default_console []
                         "./log/1700000000000.log" eq_refl))).
Defined.

(** [label("A")] on the default console changes [labels] only. *)
Lemma frame_invariant_witness :
  self_after (invoke calm (CLabel "A") default_console []) =
    mkConsole "./log/" true true (Some "./log/1700000000000.log") ["A"].
Proof.
  exact (proj1 (frame_invariant calm (CLabel "A") default_console [])).
Defined.

(** ** Sessions at concrete calls *)

(** [warning("x")] where the path check raises and the append would
    not: the prefix and the argument are printed, nothing is appended. *)
Lemma raised_call_appends_nothing_witness :
  (forall t' q text, path_check_fails t' (AppendFile q text) = true) /\
  outcome (invoke path_check_fails (CWarning [PyStr "x"]) default_console []) = Raised /\
  calls_made (invoke path_check_fails (CWarning [PyStr "x"])) default_console [] =
    [Print WARNING_prefix; Print "x "] /\
  appends (calls_made (invoke path_check_fails (CWarning [PyStr "x"]))
             default_console []) = [].
Proof.
  split; [reflexivity|]. split; [reflexivity|]. split; [reflexivity|].
  exact (raised_call_appends_nothing path_check_fails (CWarning [PyStr "x"])
           default_console [] (fun _ _ _ => eq_refl) eq_refl).
Defined.

(** [out("x")] on the default console. *)
Lemma append_comes_last_after_path_check_witness :
  appends (calls_made (invoke calm (COut [PyStr "x"] None)) default_console []) <> [] /\
  exists pre p wargs,
    path default_console = Some p /\
    terminal_only pre /\
    calls_made (invoke calm (COut [PyStr "x"] None)) default_console [] =
      (pre ++ [PathExists (written_file p);
               AppendFile (written_file p) (record wargs)])%list.
Proof.
  assert (Happ : appends (calls_made (invoke calm (COut [PyStr "x"] None))
                            default_console []) <> []).
  { discriminate. }
  split; [exact Happ|].
  exact (append_comes_last_after_path_check calm (COut [PyStr "x"] None)
           default_console [] Happ).
Defined.

(** [log("msg", label="A")] once "A" is registered. *)
Lemma passing_log_is_out_or__write_witness :
  (Some "A" = None \/
   exists l, Some "A" = Some l /\ In l (labels (set_labels ["A"] default_console))) /\
  log calm [PyStr "msg"] None (Some "A") (set_labels ["A"] default_console) [] =
    out calm [PyStr "msg"] None (set_labels ["A"] default_console) [].
Proof.
  assert (Hgate : Some "A" = None \/
    exists l, Some "A" = Some l /\ In l (labels (set_labels ["A"] default_console))).
  { right. exists "A". split; [reflexivity | left; reflexivity]. }
  split; [exact Hgate|].
  exact (passing_log_is_out_or__write calm [PyStr "msg"] None (Some "A")
           (set_labels ["A"] default_console) [] Hgate).
Defined.

(** [log("x", color="PURPLE")] on the default console. *)
Lemma unknown_color_log_is_file_only_witness :
  ~ In "PURPLE" color_names /\
  terminal_output
    (calls_made (log calm [PyStr "x"] (Some "PURPLE") None) default_console []) = [].
Proof.
  assert (Hc : ~ In "PURPLE" color_names).
  { simpl. intuition discriminate. }
  split; [exact Hc|].
  exact (proj1 (unknown_color_log_is_file_only calm "PURPLE" [PyStr "x"] None
                  default_console [] Hc)).
Defined.

(** After [label("A")] and [warning("w")], a call labelled "B" is
    still dropped. *)
Lemma unregistered_label_stays_gated_witness :
  ~ In "B" (labels default_console) /\
  ~ In "B" (registered [CLabel "A"; CWarning [PyStr "w"]]) /\
  log calm [PyStr "msg"] None (Some "B")
      (self_after (run_calls calm [CLabel "A"; CWarning [PyStr "w"]]
                     default_console [])) [] =
    mkRun (Returned tt)
      (self_after (run_calls calm [CLabel "A"; CWarning [PyStr "w"]]
                     default_console [])) [].
Proof.
  assert (H1 : ~ In "B" (labels default_console)).
  { simpl. tauto. }
  assert (H2 : ~ In "B" (registered [CLabel "A"; CWarning [PyStr "w"]])).
  { simpl. intuition discriminate. }
  split; [exact H1|]. split; [exact H2|].
  exact (unregistered_label_stays_gated calm "B"
           [CLabel "A"; CWarning [PyStr "w"]] default_console []
           [PyStr "msg"] None [] H1 H2).
Defined.

(** [Console()] at 1700000000000 ms. *)
Lemma constructed_console_always_writes_witness :
  __init__ calm "./log/" true 1700000000000 [] =
    (Returned default_console, [PathExists "./log/"]) /\
  _log default_console = true /\ labels default_console = [].
Proof.
  split; [reflexivity|].
  pose proof (constructed_console_always_writes calm "./log/" true
                1700000000000 [] default_console [PathExists "./log/"] eq_refl)
    as (_ & _ & _ & Hlog & Hlabels & _).
  exact (conj Hlog Hlabels).
Defined.

(** Two consoles built one millisecond apart. *)
Lemma same_path_iff_same_millisecond_witness :
  __init__ calm "./log/" true 1 [] =
    (Returned (mkConsole "./log/" true true (Some "./log/1.log") []),
     [PathExists "./log/"]) /\
  __init__ calm "./log/" false 2 [] =
    (Returned (mkConsole "./log/" false true (Some "./log/2.log") []),
     [PathExists "./log/"]) /\
  (Some "./log/1.log" = Some "./log/2.log" <-> 1%Z = 2%Z).
Proof.
  split; [reflexivity|]. split; [reflexivity|].
  exact (same_path_iff_same_millisecond calm "./log/" true false 1 2 [] []
           (mkConsole "./log/" true true (Some "./log/1.log") [])
           (mkConsole "./log/" false true (Some "./log/2.log") [])
           [PathExists "./log/"] [PathExists "./log/"] eq_refl eq_refl).
Defined.

(** A session of four calls: one record per call that writes, the call
    labelled "B" dropped. *)
Lemma session_text_in_call_order_witness :
  path default_console = Some "./log/1700000000000.log" /\
  (outcome (run_calls calm
              [CLabel "A"; CLog [PyStr "m"] None (Some "A");
               CLog [PyStr "n"] None (Some "B"); CWarning [PyStr "w"]]
              default_console []) = Returned tt ->
   file_text "./log/./log/1700000000000.log"
     (calls_made (run_calls calm
                    [CLabel "A"; CLog [PyStr "m"] None (Some "A");
                     CLog [PyStr "n"] None (Some "B"); CWarning [PyStr "w"]])
        default_console []) =
     ("m" ++ NL) ++ ("WARNING: w" ++ NL)).
Proof.
  split; [reflexivity|].
  exact (proj2 (session_text_in_call_order calm
                  [CLabel "A"; CLog [PyStr "m"] None (Some "A");
                   CLog [PyStr "n"] None (Some "B"); CWarning [PyStr "w"]]
                  default_console [] "./log/1700000000000.log" eq_refl)).
Defined.

(** [error("disk", "full")] on the default console. *)
Lemma path_itself_is_never_written_witness :
  path default_console = Some "./log/1700000000000.log" /\
  In ("./log/./log/1700000000000.log", "ERROR: disk full" ++ NL)
     (appends (calls_made (run_calls calm [CError [PyStr "disk"; PyStr "full"]])
                 default_console [])) /\
  "./log/./log/1700000000000.log" <> "./log/1700000000000.log".
Proof.
  assert (Hin : In ("./log/./log/1700000000000.log", "ERROR: disk full" ++ NL)
     (appends (calls_made (run_calls calm [CError [PyStr "disk"; PyStr "full"]])
                 default_console []))).
  { left. reflexivity. }
  split; [reflexivity|]. split; [exact Hin|].
  exact (proj2 (path_itself_is_never_written calm
                  [CError [PyStr "disk"; PyStr "full"]] default_console []
                  "./log/1700000000000.log" _ _ eq_refl Hin)).
Defined.

End console.
